(** * srsENB MAC: per-carrier scheduler ([scheduler_carrier.cc])

    A shallow embedding of the broadcast scheduler [bc_sched], the
    random-access scheduler [ra_sched] and the carrier scheduler
    [sched::carrier_sched], followed by the properties of the scheduler
    specification established on it.

    Conventions.
    - [uint32_t] and [uint16_t] values are integers of [Z]; every arithmetic
      operation of the source that can wrap is written with [u32] / [u16].
    - C arrays are lists of the array's length, read with [!!] and written
      with [<[ i := x ]>].  A store outside the array is undefined behaviour
      in C++; the list update leaves the array as it is there, and the
      places where this can happen are pointed out.
    - [std::deque] is a list, the front of the deque being the head.
    - Member functions take the object's state and return the new state;
      [log_h] output and the calls made on collaborators are returned as a
      chronological list of [event]s. *)

From Stdlib Require Import ZArith List Bool Lia Sorting.Sorted.
From stdpp Require Import base list.

Local Open Scope Z_scope.

(** ** Machine integers *)

Definition u32 (x : Z) : Z := x mod 2 ^ 32.
Definition u16 (x : Z) : Z := x mod 2 ^ 16.

(** [srslte/config.h]: the integer status codes of the library. *)
Definition SRSLTE_SUCCESS : Z := 0.
Definition SRSLTE_ERROR : Z := -1.

(** ** Data of the scheduler interface *)

(** [alloc_outcome_t::result_enum]. *)
Inductive alloc_outcome_t :=
| SUCCESS
| DCI_COLLISION
| RB_COLLISION
| ERROR.

Definition alloc_outcome_eqb (a b : alloc_outcome_t) : bool :=
  match a, b with
  | SUCCESS, SUCCESS | DCI_COLLISION, DCI_COLLISION
  | RB_COLLISION, RB_COLLISION | ERROR, ERROR => true
  | _, _ => false
  end.

(** [sched_interface::dl_sched_rar_info_t]: one detected preamble. *)
Record dl_sched_rar_info_t := mk_rar_info {
  preamble_idx : Z;
  ta_cmd : Z;
  temp_crnti : Z;
  msg3_size : Z;
  info_prach_tti : Z          (* field [prach_tti] of the struct *)
}.

Definition rar_info_zero : dl_sched_rar_info_t := mk_rar_info 0 0 0 0 0.

(** [sf_sched::pending_rar_t].  [msg3_grant] is the C array
    [msg3_grant[sched_interface::MAX_RAR_LIST]]. *)
Record pending_rar_t := mk_pending_rar {
  ra_rnti : Z;
  prach_tti : Z;
  nof_grants : Z;
  msg3_grant : list dl_sched_rar_info_t
}.

(** [sf_sched::pending_msg3_t]. *)
Record pending_msg3_t := mk_pending_msg3 {
  msg3_rnti : Z;
  msg3_L : Z;
  msg3_n_prb : Z;
  msg3_mcs : Z
}.

(** [ul_sched_phich_t]: the value of a PHICH element and its RNTI. *)
Inductive phich_value := ACK | NACK.

Record ul_sched_phich_t := mk_phich {
  phich : phich_value;
  phich_rnti : Z
}.

Definition phich_zero : ul_sched_phich_t := mk_phich ACK 0.

(** One grant of a scheduled RAR as [sched_msg3] reads it from
    [dl_sched_result.rar[i].msg3_grant[j]]: [grant.rba], [grant.trunc_mcs]
    and [data.temp_crnti]. *)
Record dl_sched_rar_grant_t := mk_rar_grant {
  grant_rba : Z;
  grant_trunc_mcs : Z;
  data_temp_crnti : Z
}.

(** [sf_sched::ul_alloc_t::type_t]. *)
Inductive ul_alloc_type := NEWTX | NOADAPT_RETX | ADAPT_RETX | MSG3.

(** [sched::cell_cfg_t], the fields the carrier scheduler reads, and the
    two values it takes from [sched_params_t]. *)
Record sib_cfg_t := mk_sib_cfg {
  len : Z;
  period_rf : Z
}.

Record cell_cfg_t := mk_cell_cfg {
  sibs : list sib_cfg_t;
  si_window_ms : Z;
  prach_rar_window : Z;
  prach_config : Z;
  prach_freq_offset : Z;
  nrb_pucch : Z;               (* an [int] in the source *)
  nof_prb : Z;                 (* [cell.nof_prb] *)
  nof_ctrl_symbols : Z;        (* [sched_params->sched_cfg.nof_ctrl_symbols] *)
  enb_cc_idx : Z
}.

(** ** Observable events

    What a call writes to [log_h] and the calls it makes on the subframe
    slot, in the order in which the source performs them. *)
Inductive event :=
| Info_new_prach (rar_info : dl_sched_rar_info_t)
| Console_rar_window (prach window now : Z)
| Error_rar_window (prach window now : Z)
| Warning_msg3_no_user (rnti : Z)
| Warning_msg3_not_allocated (n_prb n_prb_end : Z)
| Error_msg3_failed (rnti tti : Z)
| Debug_msg3_queued (rnti tti : Z)
| Debug_phich (rnti : Z) (v : phich_value)
| Debug_prach_rbs (mask : Z)
| Error_pucch_collision (ul_mask pucch_mask : Z)
| Call_alloc_bc (aggr_lvl sib_idx n_tx : Z)
| Call_alloc_paging (aggr_lvl payload : Z)
| Call_alloc_rar (aggr_lvl : Z) (rar : pending_rar_t) (ret : alloc_outcome_t * Z)
| Call_alloc_ul (rnti : Z) (n_prb L : Z) (mcs : Z)
| Call_alloc_ul_users
| Call_alloc_dl_users
| Call_generate_dcis.

(** ** Collaborators

    Code of other translation units that [scheduler_carrier.cc] calls: the
    allocation primitives of the subframe slot ([scheduler_grid.cc]), the
    per-UE state ([scheduler_ue.cc]), the data metrics, RRC, and helpers of
    the PHY library.  [grid] is the part of a subframe slot that only those
    primitives touch (PDCCH candidates, RBG masks, allocation lists, the
    downlink result); [sched_ue] is the state of one UE. *)
Class Collaborators := {
  grid : Type;
  sched_ue : Type;
  (* constants of [sched_interface] *)
  MAX_RAR_LIST : nat;
  MAX_PHICH_LIST : nat;
  (* [sched_utils], [srslte] *)
  is_in_tti_interval : Z -> Z -> Z -> bool;
  srslte_tti_interval : Z -> Z -> Z;
  srslte_prach_tti_opportunity_config_fdd : Z -> Z -> Z -> bool;
  srslte_ra_type2_from_riv : Z -> Z -> Z -> Z * Z;       (* riv, nof_prb, nof_vrb -> (L, n_prb) *)
  TTI_RX_ACK : Z -> Z;
  (* [sf_sched] primitives; the first argument of each is the slot's [tti_rx] *)
  grid_new_tti : Z -> Z -> grid -> grid;
  alloc_bc : Z -> Z -> Z -> Z -> grid -> alloc_outcome_t * grid;
  alloc_paging : Z -> Z -> Z -> grid -> alloc_outcome_t * grid;
  alloc_rar : Z -> Z -> pending_rar_t -> grid -> (alloc_outcome_t * Z) * grid;
  alloc_ul : Z -> sched_ue -> Z * Z -> ul_alloc_type -> Z -> Z * grid -> bool * sched_ue * (Z * grid);
  alloc_msg3_ok : Z -> pending_msg3_t -> list pending_msg3_t -> bool;
  dl_mask_fill_all : grid -> grid;
  generate_dcis : Z -> list (Z * sched_ue) -> Z * grid -> list (Z * sched_ue) * grid;
  dl_sched_result_rar : grid -> list (list dl_sched_rar_grant_t);
  (* [sched_ue], [ul_harq_proc] *)
  get_cell_index : sched_ue -> Z -> bool * Z;
  ul_harq_has_pending_ack : sched_ue -> Z -> Z -> bool;
  ul_harq_get_pending_ack : sched_ue -> Z -> Z -> bool;
  finish_tti : sched_ue -> Z -> Z -> sched_ue;
  (* [dl_metric_rr], [ul_metric_rr] *)
  dl_metric_sched_users : Z -> list (Z * sched_ue) -> grid -> list (Z * sched_ue) * grid;
  ul_metric_sched_users : Z -> list (Z * sched_ue) -> Z * grid -> list (Z * sched_ue) * (Z * grid);
  (* [rrc_interface_mac::is_paging_opportunity], [None] when [rrc == nullptr] *)
  rrc_is_paging_opportunity : option (Z -> bool * Z)
}.

(** ** The subframe slot [sf_sched]

    The fields that [scheduler_carrier.cc] reads or writes itself are
    explicit; the rest of the slot is its [grid]. *)
Section Slot.
Context `{Collaborators}.

Record sf_sched := mk_sf_sched {
  tti_rx : Z;                                  (* [tti_params.tti_rx] *)
  ul_mask : Z;                                 (* [get_ul_mask()], bit i = PRB i *)
  pending_msg3 : list pending_msg3_t;          (* [get_pending_msg3()] *)
  ul_phich : list ul_sched_phich_t;            (* [ul_sched_result.phich] *)
  nof_phich_elems : Z;                         (* [ul_sched_result.nof_phich_elems] *)
  sf_grid : grid
}.

Definition set_ul_grid (sf : sf_sched) (mg : Z * grid) : sf_sched :=
  mk_sf_sched (tti_rx sf) (fst mg) (pending_msg3 sf) (ul_phich sf)
              (nof_phich_elems sf) (snd mg).

Definition set_grid (sf : sf_sched) (g : grid) : sf_sched :=
  set_ul_grid sf (ul_mask sf, g).

Definition set_ul_mask (sf : sf_sched) (m : Z) : sf_sched :=
  set_ul_grid sf (m, sf_grid sf).

Definition set_pending_msg3 (sf : sf_sched) (q : list pending_msg3_t) : sf_sched :=
  mk_sf_sched (tti_rx sf) (ul_mask sf) q (ul_phich sf) (nof_phich_elems sf) (sf_grid sf).

Definition set_phich (sf : sf_sched) (p : list ul_sched_phich_t) (n : Z) : sf_sched :=
  mk_sf_sched (tti_rx sf) (ul_mask sf) (pending_msg3 sf) p n (sf_grid sf).
End Slot.

(** Modelled from the spec: the delay macros of [srslte/common/common.h]
    (FDD_TX_DELAY, FDD_UL_DELAY, MSG3_DELAY_MS) and the TTI period are not
    part of this translation unit; the spec gives [tti_tx_dl = tti_rx + 4],
    [tti_tx_ul = tti_rx + 4], a Msg3 lead of 6 and TTIs wrapping at 10240. *)
Definition FDD_TX_DELAY : Z := 4.
Definition FDD_UL_DELAY : Z := 4.
Definition MSG3_DELAY_MS : Z := 6.
Definition TTI_PERIOD : Z := 10240.

Section SlotTti.
Context `{Collaborators}.

(** Modelled from the spec: the getters of [tti_params_t], declared in
    [scheduler_grid.h]: [SFN = tti / 10] and [sf_idx = tti mod 10] of the
    downlink transmission TTI. *)
Definition get_tti_rx (sf : sf_sched) : Z := tti_rx sf.
Definition get_tti_tx_dl (sf : sf_sched) : Z := (tti_rx sf + FDD_TX_DELAY) mod TTI_PERIOD.
Definition get_tti_tx_ul (sf : sf_sched) : Z := (tti_rx sf + FDD_UL_DELAY) mod TTI_PERIOD.
Definition get_sfn (sf : sf_sched) : Z := get_tti_tx_dl sf / 10.
Definition get_sf_idx (sf : sf_sched) : Z := get_tti_tx_dl sf mod 10.

(** Modelled from the spec: [sf_sched::new_tti] ([scheduler_grid.cc])
    rebinds the slot to [tti_rx] and zeroes its per-TTI state.  Msg3s were
    queued on the slot ahead of time and stay. *)
Definition new_tti (t start_cfi : Z) (sf : sf_sched) : sf_sched :=
  mk_sf_sched t 0 (pending_msg3 sf) (replicate MAX_PHICH_LIST phich_zero) 0
              (grid_new_tti t start_cfi (sf_grid sf)).

(** Modelled from the spec: [sf_sched::alloc_msg3] appends a pending-Msg3
    descriptor to the slot; whether it accepts is the collaborator's
    [alloc_msg3_ok]. *)
Definition alloc_msg3 (msg3 : pending_msg3_t) (sf : sf_sched) : bool * sf_sched :=
  if alloc_msg3_ok (tti_rx sf) msg3 (pending_msg3 sf)
  then (true, set_pending_msg3 sf (pending_msg3 sf ++ [msg3]))
  else (false, sf).
End SlotTti.

(** [std::map<uint16_t, sched_ue>]: the entries in key order. *)
Fixpoint ue_db_find {U : Type} (rnti : Z) (db : list (Z * U)) : option U :=
  match db with
  | [] => None
  | (k, u) :: db' => if k =? rnti then Some u else ue_db_find rnti db'
  end.

Fixpoint ue_db_set {U : Type} (rnti : Z) (u' : U) (db : list (Z * U)) : list (Z * U) :=
  match db with
  | [] => []
  | (k, u) :: db' => if k =? rnti then (k, u') :: db' else (k, u) :: ue_db_set rnti u' db'
  end.

(** [std::copy(&a[first], &a[last], &a[0])]: element by element, front to
    back.  [count] is [last - first]. *)
Fixpoint std_copy {A : Type} (count : nat) (src dst : nat) (a : list A) : list A :=
  match count with
  | O => a
  | S c =>
      match a !! src with
      | Some x => std_copy c (S src) (S dst) (<[dst := x]> a)
      | None => a                      (* read past the array *)
      end
  end.

(** * Random-access scheduler *)
Module ra_sched.
Section Defs.
Context `{Collaborators}.

(** The members of [ra_sched]; [cfg], [log_h] and [ue_db] are passed to
    the member functions. *)
Record t := mk {
  pending_rars : list pending_rar_t;
  rar_aggr_level : Z
}.

Definition set_pending_rars (rs : t) (q : list pending_rar_t) : t :=
  mk q (rar_aggr_level rs).

(** How an iteration of a loop ends: [continue] / falling off the end of
    the body, or [return]. *)
Inductive ctl := Next | Return.

(** The body of the [while] loop of [ra_sched::dl_sched] on a non-empty
    queue [rar :: rest]. *)
Definition dl_sched_body (cfg : cell_cfg_t) (tti_rx tti_tx_dl aggr : Z)
    (rar : pending_rar_t) (rest : list pending_rar_t) (g : grid)
    : ctl * list pending_rar_t * grid * list event :=
  let prach := prach_tti rar in
  if negb (is_in_tti_interval tti_tx_dl (u32 (prach + 3))
                              (u32 (prach + 3 + prach_rar_window cfg))) then
    if u32 (prach + 3 + prach_rar_window cfg) <=? tti_tx_dl then
      (Next, rest, g,
       [Console_rar_window prach (prach_rar_window cfg) tti_tx_dl;
        Error_rar_window prach (prach_rar_window cfg) tti_tx_dl])
    else
      (Return, rar :: rest, g, [])
  else
    let '(ret, g') := alloc_rar tti_rx aggr rar g in
    let ev := [Call_alloc_rar aggr rar ret] in
    match fst ret with
    | SUCCESS =>
        if snd ret =? nof_grants rar then
          (Next, rest, g', ev)
        else if 0 <? snd ret then
          let grants :=
            std_copy (Z.to_nat (nof_grants rar - snd ret)) (Z.to_nat (snd ret)) 0
                     (msg3_grant rar) in
          let rar' := mk_pending_rar (ra_rnti rar) (prach_tti rar)
                                     (u32 (nof_grants rar - snd ret)) grants in
          (Next, rar' :: rest, g', ev)
        else
          (Next, rar :: rest, g', ev)
    | RB_COLLISION => (Return, rar :: rest, g', ev)
    | _ => (Next, rar :: rest, g', ev)
    end.

(** The state of the loop: whether it is still running, the queue, the
    slot's grid, and the events so far. *)
Definition loop_state : Type := ctl * list pending_rar_t * grid * list event.

Definition loop_step (cfg : cell_cfg_t) (tti_rx tti_tx_dl aggr : Z) (st : loop_state)
    : loop_state :=
  match st with
  | (Next, rar :: rest, g, evs) =>
      let '(c, q', g', ev) := dl_sched_body cfg tti_rx tti_tx_dl aggr rar rest g in
      (c, q', g', evs ++ ev)
  | _ => st
  end.

(** The loop has left the [while]: by [return] or because the queue is
    empty. *)
Definition exited (st : loop_state) : bool :=
  match st with
  | (Return, _, _, _) => true
  | (Next, [], _, _) => true
  | (Next, _ :: _, _, _) => false
  end.

(** [n] iterations of the loop (fewer when it exits before). *)
Fixpoint loop_iter (cfg : cell_cfg_t) (tti_rx tti_tx_dl aggr : Z) (n : nat)
    (st : loop_state) : loop_state :=
  match n with
  | O => st
  | S n' => loop_iter cfg tti_rx tti_tx_dl aggr n' (loop_step cfg tti_rx tti_tx_dl aggr st)
  end.

(** [ra_sched::dl_sched].  The [while] loop has no bound in the source:
    [fuel] bounds the number of iterations, and the result is [None] when
    the loop has not exited within it. *)
Definition dl_sched (fuel : nat) (cfg : cell_cfg_t) (rs : t) (sf : sf_sched)
    : option (t * sf_sched * list event) :=
  let tti_tx_dl := get_tti_tx_dl sf in
  let aggr := 2 in
  let st := loop_iter cfg (tti_rx sf) tti_tx_dl aggr fuel
                      (Next, pending_rars rs, sf_grid sf, []) in
  if exited st then
    let '(_, q, g, evs) := st in Some (mk q aggr, set_grid sf g, evs)
  else None.

(** [ra_sched::ul_sched]: every iteration pops the front of the slot's
    Msg3 queue, so the loop is a recursion over that queue. *)
Fixpoint ul_sched_loop (tti : Z) (q : list pending_msg3_t) (ue_db : list (Z * sched_ue))
    (mg : Z * grid) : list (Z * sched_ue) * (Z * grid) * list event :=
  match q with
  | [] => (ue_db, mg, [])
  | msg3 :: q' =>
      match ue_db_find (msg3_rnti msg3) ue_db with
      | None =>
          let '(db, mg', ev) := ul_sched_loop tti q' ue_db mg in
          (db, mg', Warning_msg3_no_user (msg3_rnti msg3) :: ev)
      | Some user =>
          let '(ok, user', mg1) :=
            alloc_ul tti user (msg3_n_prb msg3, msg3_L msg3) MSG3 (msg3_mcs msg3) mg in
          let call := Call_alloc_ul (msg3_rnti msg3) (msg3_n_prb msg3) (msg3_L msg3)
                                    (msg3_mcs msg3) in
          let warn :=
            if ok then []
            else [Warning_msg3_not_allocated (msg3_n_prb msg3)
                                             (u32 (msg3_n_prb msg3 + msg3_L msg3))] in
          let '(db, mg2, ev) :=
            ul_sched_loop tti q' (ue_db_set (msg3_rnti msg3) user' ue_db) mg1 in
          (db, mg2, (call :: warn) ++ ev)
      end
  end.

Definition ul_sched (rs : t) (ue_db : list (Z * sched_ue)) (sf : sf_sched)
    : t * list (Z * sched_ue) * sf_sched * list event :=
  let '(db, mg, ev) :=
    ul_sched_loop (tti_rx sf) (pending_msg3 sf) ue_db (ul_mask sf, sf_grid sf) in
  (rs, db, set_ul_grid (set_pending_msg3 sf []) mg, ev).

(** [RA-RNTI = 1 + t_id + f_id], with [f_id = 0] for FDD. *)
Definition dl_rach_rnti (rar_info : dl_sched_rar_info_t) : Z :=
  u16 (1 + u16 (u32 (info_prach_tti rar_info) mod 10)).

(** The test [r.prach_tti == rar_info.prach_tti and ra_rnti == r.ra_rnti]. *)
Definition same_rar (rnti : Z) (rar_info : dl_sched_rar_info_t) (r : pending_rar_t) : bool :=
  (prach_tti r =? info_prach_tti rar_info) && (rnti =? ra_rnti r).

(** [r.msg3_grant[r.nof_grants] = rar_info; r.nof_grants++].  The source
    does not guard the store: with [nof_grants = MAX_RAR_LIST] it is past
    the end of the array. *)
Definition add_grant (rar_info : dl_sched_rar_info_t) (r : pending_rar_t) : pending_rar_t :=
  mk_pending_rar (ra_rnti r) (prach_tti r) (u32 (nof_grants r + 1))
                 (<[Z.to_nat (nof_grants r) := rar_info]> (msg3_grant r)).

(** The [for] loop of [ra_sched::dl_rach_info] over [pending_rars]:
    [Some q'] when an entry matched (and the function returned from inside
    the loop), [None] when the loop ran to the end. *)
Fixpoint dl_rach_info_find (rnti : Z) (rar_info : dl_sched_rar_info_t)
    (q : list pending_rar_t) : option (list pending_rar_t) :=
  match q with
  | [] => None
  | r :: q' =>
      if same_rar rnti rar_info r then Some (add_grant rar_info r :: q')
      else cons r <$> dl_rach_info_find rnti rar_info q'
  end.

(** The RAR that [dl_rach_info] creates when none matched. *)
Definition new_rar (rar_info : dl_sched_rar_info_t) : pending_rar_t :=
  mk_pending_rar (dl_rach_rnti rar_info) (info_prach_tti rar_info) 1
                 (<[0%nat := rar_info]> (replicate MAX_RAR_LIST rar_info_zero)).

(** [ra_sched::dl_rach_info]. *)
Definition dl_rach_info (rs : t) (rar_info : dl_sched_rar_info_t) : Z * t * list event :=
  let ev := [Info_new_prach rar_info] in
  match dl_rach_info_find (dl_rach_rnti rar_info) rar_info (pending_rars rs) with
  | Some q' => (SRSLTE_SUCCESS, set_pending_rars rs q', ev)
  | None => (SRSLTE_SUCCESS, set_pending_rars rs (pending_rars rs ++ [new_rar rar_info]), ev)
  end.

(** [ra_sched::reset]. *)
Definition reset (rs : t) : t := set_pending_rars rs [].

(** [ra_sched::sched_msg3]: the two nested [for] loops over the scheduled
    RARs and their grants. *)
Fixpoint sched_msg3_grants (cfg : cell_cfg_t) (grants : list dl_sched_rar_grant_t)
    (sf : sf_sched) : sf_sched * list event :=
  match grants with
  | [] => (sf, [])
  | grant :: rest =>
      let '(L, n_prb) := srslte_ra_type2_from_riv (grant_rba grant) (nof_prb cfg) (nof_prb cfg) in
      let msg3 := mk_pending_msg3 (data_temp_crnti grant) L n_prb (grant_trunc_mcs grant) in
      let '(ok, sf1) := alloc_msg3 msg3 sf in
      let e := if ok then Debug_msg3_queued (msg3_rnti msg3) (get_tti_tx_ul sf)
               else Error_msg3_failed (msg3_rnti msg3) (get_tti_tx_ul sf) in
      let '(sf2, ev) := sched_msg3_grants cfg rest sf1 in
      (sf2, e :: ev)
  end.

Fixpoint sched_msg3 (cfg : cell_cfg_t) (rars : list (list dl_sched_rar_grant_t))
    (sf_msg3_sched : sf_sched) : sf_sched * list event :=
  match rars with
  | [] => (sf_msg3_sched, [])
  | grants :: rest =>
      let '(sf1, ev1) := sched_msg3_grants cfg grants sf_msg3_sched in
      let '(sf2, ev2) := sched_msg3 cfg rest sf1 in
      (sf2, ev1 ++ ev2)
  end.
End Defs.
End ra_sched.

(** Modelled from the spec: [srslte::ceil_div] is declared in a header of
    the common library; the spec uses it as the ceiling of the quotient. *)
Definition ceil_div (a b : Z) : Z := (a + b - 1) / b.

(** * Broadcast scheduler *)
Module bc_sched.
Section Defs.
Context `{Collaborators}.

(** [bc_sched::sched_sib_t]. *)
Record sched_sib_t := mk_sib {
  is_in_window : bool;
  window_start : Z;
  n_tx : Z
}.

Definition sib_zero : sched_sib_t := mk_sib false 0 0.

Record t := mk {
  pending_sibs : list sched_sib_t;
  current_sf_idx : Z;
  current_sfn : Z;
  current_tti : Z;
  bc_aggr_level : Z
}.

(** [cfg->sibs[i]]. *)
Definition cfg_sib (cfg : cell_cfg_t) (i : nat) : sib_cfg_t :=
  default (mk_sib_cfg 0 0) (sibs cfg !! i).

(** The body of the [for] loop of [update_si_windows] at index [i].
    [current_sfn % period_rf] is undefined in C++ for [period_rf = 0]. *)
Definition update_si_window (cfg : cell_cfg_t) (sfn sf_idx tti_tx_dl : Z) (i : nat)
    (sib : sched_sib_t) : sched_sib_t :=
  if len (cfg_sib cfg i) =? 0 then sib
  else if negb (is_in_window sib) then
    let x := if (0 <? Z.of_nat i) then u32 ((Z.of_nat i - 1) * si_window_ms cfg) else 0 in
    let sf := if (0 <? Z.of_nat i) then x mod 10 else 5 in
    if (sfn mod period_rf (cfg_sib cfg i) =? x / 10) && (sf_idx =? sf)
    then mk_sib true tti_tx_dl 0
    else sib
  else if (0 <? Z.of_nat i) then
    if si_window_ms cfg <? srslte_tti_interval tti_tx_dl (window_start sib)
    then sib_zero
    else sib
  else
    (* SIB1 is always in window *)
    if n_tx sib =? 4 then mk_sib (is_in_window sib) (window_start sib) 0 else sib.

(** The loop over [i = 0 .. pending_sibs.size() - 1], started at index
    [i] with the entries from [i] on. *)
Fixpoint update_si_windows_from (cfg : cell_cfg_t) (sfn sf_idx tti_tx_dl : Z) (i : nat)
    (ps : list sched_sib_t) : list sched_sib_t :=
  match ps with
  | [] => []
  | sib :: ps' =>
      update_si_window cfg sfn sf_idx tti_tx_dl i sib
      :: update_si_windows_from cfg sfn sf_idx tti_tx_dl (S i) ps'
  end.

Definition update_si_windows (cfg : cell_cfg_t) (bs : t) (sf : sf_sched) : t :=
  mk (update_si_windows_from cfg (current_sfn bs) (current_sf_idx bs) (get_tti_tx_dl sf)
                             0 (pending_sibs bs))
     (current_sf_idx bs) (current_sfn bs) (current_tti bs) (bc_aggr_level bs).

(** Whether the body of the loop of [alloc_sibs] reaches
    [tti_sched->alloc_bc] at index [i]. *)
Definition sib_fires (cfg : cell_cfg_t) (sfn sf_idx tti_tx_dl : Z) (i : nat)
    (sib : sched_sib_t) : bool :=
  if (0 <? len (cfg_sib cfg i)) && is_in_window sib && (n_tx sib <? 4) then
    let nof_tx := if (0 <? Z.of_nat i)
                  then Z.min (ceil_div (si_window_ms cfg) 10) 4 else 4 in
    let n_sf := u32 (tti_tx_dl - window_start sib) in
    let sib1_flag := (Z.of_nat i =? 0) && (sfn mod 2 =? 0) && (sf_idx =? 5) in
    let other_sibs_flag :=
      (0 <? Z.of_nat i) && (u32 (si_window_ms cfg / nof_tx * n_tx sib) <=? n_sf)
      && (sf_idx =? 9) in
    sib1_flag || other_sibs_flag
  else false.

Fixpoint alloc_sibs_from (cfg : cell_cfg_t) (aggr sfn sf_idx tti_rx tti_tx_dl : Z) (i : nat)
    (ps : list sched_sib_t) (g : grid) : list sched_sib_t * grid * list event :=
  match ps with
  | [] => ([], g, [])
  | sib :: ps' =>
      if sib_fires cfg sfn sf_idx tti_tx_dl i sib then
        let '(_, g1) := alloc_bc tti_rx aggr (Z.of_nat i) (n_tx sib) g in
        let sib' := mk_sib (is_in_window sib) (window_start sib) (u32 (n_tx sib + 1)) in
        let '(ps'', g2, ev) :=
          alloc_sibs_from cfg aggr sfn sf_idx tti_rx tti_tx_dl (S i) ps' g1 in
        (sib' :: ps'', g2, Call_alloc_bc aggr (Z.of_nat i) (n_tx sib) :: ev)
      else
        let '(ps'', g2, ev) :=
          alloc_sibs_from cfg aggr sfn sf_idx tti_rx tti_tx_dl (S i) ps' g in
        (sib :: ps'', g2, ev)
  end.

Definition alloc_sibs (cfg : cell_cfg_t) (bs : t) (sf : sf_sched)
    : t * sf_sched * list event :=
  let '(ps, g, ev) :=
    alloc_sibs_from cfg (bc_aggr_level bs) (current_sfn bs) (current_sf_idx bs)
                    (tti_rx sf) (get_tti_tx_dl sf) 0 (pending_sibs bs) (sf_grid sf) in
  (mk ps (current_sf_idx bs) (current_sfn bs) (current_tti bs) (bc_aggr_level bs),
   set_grid sf g, ev).

(** [bc_sched::alloc_paging]. *)
Definition alloc_paging (bs : t) (sf : sf_sched) : sf_sched * list event :=
  match rrc_is_paging_opportunity with
  | Some is_paging_opportunity =>
      let '(opportunity, paging_payload) := is_paging_opportunity (current_tti bs) in
      if opportunity && (0 <? paging_payload) then
        let '(_, g) := alloc_paging (tti_rx sf) (bc_aggr_level bs) paging_payload (sf_grid sf) in
        (set_grid sf g, [Call_alloc_paging (bc_aggr_level bs) paging_payload])
      else (sf, [])
  | None => (sf, [])
  end.

(** [bc_sched::dl_sched]. *)
Definition dl_sched (cfg : cell_cfg_t) (bs : t) (sf : sf_sched) : t * sf_sched * list event :=
  let bs0 := mk (pending_sibs bs) (get_sf_idx sf) (get_sfn sf) (get_tti_tx_dl sf) 2 in
  let bs1 := update_si_windows cfg bs0 sf in
  let '(bs2, sf2, ev2) := alloc_sibs cfg bs1 sf in
  let '(sf3, ev3) := alloc_paging bs2 sf2 in
  (bs2, sf3, ev2 ++ ev3).

(** [bc_sched::reset]. *)
Definition reset (bs : t) : t :=
  mk (map (fun _ => sib_zero) (pending_sibs bs))
     (current_sf_idx bs) (current_sfn bs) (current_tti bs) (bc_aggr_level bs).
End Defs.
End bc_sched.

(** * Carrier scheduler *)

(** [bounded_bitset::fill(startpos, endpos)]: sets the bits of
    [startpos .. endpos - 1]. *)
Definition mask_fill (startpos endpos : Z) (m : Z) : Z :=
  Z.lor m (Z.shiftl (Z.ones (Z.max 0 (endpos - startpos))) startpos).

(** [(a & b).any()]. *)
Definition mask_any (m : Z) : bool := negb (m =? 0).

Module carrier_sched.
Section Defs.
Context `{Collaborators}.

(** The members of [sched::carrier_sched] after [carrier_cfg], with the
    UE database that [ue_db] points to.  [cc_cfg] is passed to the member
    functions. *)
Record t := mk {
  sf_scheds : list sf_sched;                 (* the ring of subframe slots *)
  ra_sched_ptr : ra_sched.t;
  bc_sched_ptr : bc_sched.t;
  sf_dl_mask : list Z;
  pucch_mask : Z;
  prach_mask : Z;
  ue_db : list (Z * sched_ue)
}.

(** The two masks computed by [carrier_cfg]. *)
Definition cfg_pucch_mask (cfg : cell_cfg_t) : Z :=
  if 0 <? nrb_pucch cfg then
    mask_fill (u32 (nof_prb cfg - nrb_pucch cfg)) (nof_prb cfg)
              (mask_fill 0 (u32 (nrb_pucch cfg)) 0)
  else 0.

Definition cfg_prach_mask (cfg : cell_cfg_t) : Z :=
  mask_fill (prach_freq_offset cfg) (u32 (prach_freq_offset cfg + 6)) 0.

(** [sf_dl_mask[tti_tx_dl % sf_dl_mask.size()]]; the source keeps at least
    one element in the vector. *)
Definition dl_mask_at (mask : list Z) (tti_tx_dl : Z) : Z :=
  default 0 (mask !! Z.to_nat (tti_tx_dl mod Z.of_nat (length mask))).

(** Modelled from the spec: [get_sf_sched] is defined in the header; the
    ring of slots is indexed by [tti_rx mod RING]. *)
Definition get_sf_sched_idx (cs : t) (tti : Z) : nat :=
  Z.to_nat (tti mod Z.of_nat (length (sf_scheds cs))).

(** The loop of [generate_phich] over the UE database, with the running
    [nof_phich_elems] and the [phich] array of the uplink result. *)
Fixpoint generate_phich_loop (cfg : cell_cfg_t) (tti : Z) (db : list (Z * sched_ue))
    (nof : Z) (arr : list ul_sched_phich_t) : Z * list ul_sched_phich_t * list event :=
  match db with
  | [] => (nof, arr, [])
  | (rnti, user) :: db' =>
      let p := get_cell_index user (enb_cc_idx cfg) in
      if negb (fst p) then generate_phich_loop cfg tti db' nof arr
      else if ul_harq_has_pending_ack user tti (snd p) then
        let v := if ul_harq_get_pending_ack user tti (snd p) then ACK else NACK in
        let '(nof', arr', ev) :=
          generate_phich_loop cfg tti db' (u32 (nof + 1))
                              (<[Z.to_nat nof := mk_phich v rnti]> arr) in
        (nof', arr', Debug_phich rnti v :: ev)
      else generate_phich_loop cfg tti db' nof arr
  end.

Definition generate_phich (cfg : cell_cfg_t) (db : list (Z * sched_ue)) (sf : sf_sched)
    : sf_sched * list event :=
  let '(nof, arr, ev) := generate_phich_loop cfg (get_tti_rx sf) db 0 (ul_phich sf) in
  (set_phich sf arr nof, ev).

Definition alloc_dl_users (cfg : cell_cfg_t) (cs : t) (sf : sf_sched)
    : t * sf_sched * list event :=
  if negb (dl_mask_at (sf_dl_mask cs) (get_tti_tx_dl sf) =? 0) then
    (cs, sf, [Call_alloc_dl_users])
  else
    let g1 :=
      if (nof_prb cfg =? 6)
         && srslte_prach_tti_opportunity_config_fdd (prach_config cfg)
                                                    (TTI_RX_ACK (get_tti_rx sf)) (-1)
      then dl_mask_fill_all (sf_grid sf) else sf_grid sf in
    let '(db, g2) := dl_metric_sched_users (tti_rx sf) (ue_db cs) g1 in
    (mk (sf_scheds cs) (ra_sched_ptr cs) (bc_sched_ptr cs) (sf_dl_mask cs)
        (pucch_mask cs) (prach_mask cs) db,
     set_grid sf g2, [Call_alloc_dl_users]).

(** The slot after the PRACH reservation and the Msg3 allocations of
    [alloc_ul_users], that is just before the PUCCH check. *)
Definition alloc_ul_users_pre (cfg : cell_cfg_t) (cs : t) (sf : sf_sched)
    : t * sf_sched * list event :=
  let tti_tx_ul := get_tti_tx_ul sf in
  let '(sf1, ev1) :=
    if srslte_prach_tti_opportunity_config_fdd (prach_config cfg) tti_tx_ul (-1)
    then (set_ul_mask sf (prach_mask cs), [Debug_prach_rbs (prach_mask cs)])
    else (sf, []) in
  let '(rs, db, sf2, ev2) := ra_sched.ul_sched (ra_sched_ptr cs) (ue_db cs) sf1 in
  (mk (sf_scheds cs) rs (bc_sched_ptr cs) (sf_dl_mask cs)
      (pucch_mask cs) (prach_mask cs) db,
   sf2, ev1 ++ ev2).

Definition alloc_ul_users (cfg : cell_cfg_t) (cs : t) (sf : sf_sched)
    : Z * t * sf_sched * list event :=
  let '(cs2, sf2, ev2) := alloc_ul_users_pre cfg cs sf in
  let ev3 :=
    if negb (nof_prb cfg =? 6) && mask_any (Z.land (ul_mask sf2) (pucch_mask cs2))
    then [Error_pucch_collision (ul_mask sf2) (pucch_mask cs2)] else [] in
  let sf3 := set_ul_mask sf2 (Z.lor (ul_mask sf2) (pucch_mask cs2)) in
  let '(db, mg) :=
    ul_metric_sched_users (tti_rx sf3) (ue_db cs2) (ul_mask sf3, sf_grid sf3) in
  (SRSLTE_SUCCESS,
   mk (sf_scheds cs2) (ra_sched_ptr cs2) (bc_sched_ptr cs2) (sf_dl_mask cs2)
      (pucch_mask cs2) (prach_mask cs2) db,
   set_ul_grid sf3 mg, Call_alloc_ul_users :: ev2 ++ ev3).

Definition set_subs (cs : t) (bs : bc_sched.t) (rs : ra_sched.t) : t :=
  mk (sf_scheds cs) rs bs (sf_dl_mask cs) (pucch_mask cs) (prach_mask cs) (ue_db cs).

Definition set_ue_db (cs : t) (db : list (Z * sched_ue)) : t :=
  mk (sf_scheds cs) (ra_sched_ptr cs) (bc_sched_ptr cs) (sf_dl_mask cs)
     (pucch_mask cs) (prach_mask cs) db.

Definition set_sf_sched (cs : t) (i : nat) (sf : sf_sched) : t :=
  mk (<[i := sf]> (sf_scheds cs)) (ra_sched_ptr cs) (bc_sched_ptr cs) (sf_dl_mask cs)
     (pucch_mask cs) (prach_mask cs) (ue_db cs).

(** "Schedule DL control data": the two sub-schedulers, run when DL is
    active. *)
Definition dl_ctrl (fuel : nat) (cfg : cell_cfg_t) (dl_active : bool) (cs : t)
    (sf : sf_sched) : option (t * sf_sched * list event) :=
  if dl_active then
    let '(bs, sf1, ev1) := bc_sched.dl_sched cfg (bc_sched_ptr cs) sf in
    match ra_sched.dl_sched fuel cfg (ra_sched_ptr cs) sf1 with
    | Some (rs, sf2, ev2) => Some (set_subs cs bs rs, sf2, ev1 ++ ev2)
    | None => None
    end
  else Some (cs, sf, []).

(** "Enqueue Msg3s derived from allocated RARs", on the slot of
    [tti_rx + MSG3_DELAY_MS]. *)
Definition enqueue_msg3 (cfg : cell_cfg_t) (dl_active : bool) (tti : Z)
    (rars : list (list dl_sched_rar_grant_t)) (cs : t) : t * list event :=
  if dl_active then
    let i := get_sf_sched_idx cs (u32 (tti + MSG3_DELAY_MS)) in
    match sf_scheds cs !! i with
    | Some sf_msg3_sched =>
        let '(sf', ev) := ra_sched.sched_msg3 cfg rars sf_msg3_sched in
        (set_sf_sched cs i sf', ev)
    | None => (cs, [])
    end
  else (cs, []).

(** [carrier_sched::generate_tti_result].  The result is the index of the
    returned slot in the ring, the scheduler after the call and the events
    of the call; [None] when the RAR loop has not exited within [fuel]
    iterations (or the ring is empty, which the source excludes). *)
Definition generate_tti_result (fuel : nat) (cfg : cell_cfg_t) (cs : t) (tti : Z)
    : option (nat * t * list event) :=
  let i := get_sf_sched_idx cs tti in
  match sf_scheds cs !! i with
  | None => None
  | Some tti_sched =>
      (* if it is the first time tti is run, reset vars *)
      if negb (tti =? get_tti_rx tti_sched) then
        let start_cfi := nof_ctrl_symbols cfg in
        let dl_active := dl_mask_at (sf_dl_mask cs) (get_tti_tx_dl tti_sched) =? 0 in
        let sf0 := new_tti tti start_cfi tti_sched in
        let '(sf1, ev1) := generate_phich cfg (ue_db cs) sf0 in
        match dl_ctrl fuel cfg dl_active cs sf1 with
        | None => None
        | Some (cs2, sf2, ev2) =>
            let '(cs3, sf3, ev3) :=
              if tti mod 2 =? 0
              then let '(_, c, s, e) := alloc_ul_users cfg cs2 sf2 in (c, s, e)
              else (cs2, sf2, []) in
            let '(cs4, sf4, ev4) := alloc_dl_users cfg cs3 sf3 in
            let '(cs5, sf5, ev5) :=
              if tti mod 2 =? 1
              then let '(_, c, s, e) := alloc_ul_users cfg cs4 sf4 in (c, s, e)
              else (cs4, sf4, []) in
            let '(db6, g6) :=
              generate_dcis (tti_rx sf5) (ue_db cs5) (ul_mask sf5, sf_grid sf5) in
            let sf6 := set_grid sf5 g6 in
            let cs6 := set_sf_sched (set_ue_db cs5 db6) i sf6 in
            let '(cs7, ev7) :=
              enqueue_msg3 cfg dl_active tti (dl_sched_result_rar g6) cs6 in
            (* clean-up blocked pids *)
            let db8 :=
              map (fun user => (fst user, finish_tti (snd user) tti (enb_cc_idx cfg)))
                  (ue_db cs7) in
            Some (i, set_ue_db cs7 db8,
                  ev1 ++ ev2 ++ ev3 ++ ev4 ++ ev5 ++ [Call_generate_dcis] ++ ev7)
        end
      else Some (i, cs, [])
  end.

(** [carrier_sched::set_dl_tti_mask]: [sf_dl_mask.assign(tti_mask, tti_mask +
    nof_sfs)], the first [nof_sfs] bytes of the caller's array. *)
Definition set_dl_tti_mask (cs : t) (tti_mask : list Z) (nof_sfs : nat) : t :=
  mk (sf_scheds cs) (ra_sched_ptr cs) (bc_sched_ptr cs) (take nof_sfs tti_mask)
     (pucch_mask cs) (prach_mask cs) (ue_db cs).

(** [carrier_sched::dl_rach_info]: the call is passed on to the RA
    scheduler (under the carrier mutex). *)
Definition dl_rach_info (cs : t) (rar_info : dl_sched_rar_info_t) : Z * t * list event :=
  let '(ret, rs, ev) := ra_sched.dl_rach_info (ra_sched_ptr cs) rar_info in
  (ret, set_subs cs (bc_sched_ptr cs) rs, ev).
End Defs.
End carrier_sched.

(** * Concrete collaborators

    Small executable stand-ins for the collaborators, used to run the
    schedulers on concrete inputs. *)

(** Modelled from the spec: [sched_utils::is_in_tti_interval] is defined in
    a header; the spec describes the RAR window as [w_lo <= tti < w_hi], with
    [w_hi] exclusive. *)
Definition window_of_spec (tti lo hi : Z) : bool := (lo <=? tti) && (tti <? hi).

(** A UE of the stand-in: whether it is active on the carrier, whether its
    UL HARQ process has a pending ack, and the value of that ack. *)
Record mock_ue := mk_mock_ue {
  mock_active : bool;
  mock_has_ack : bool;
  mock_ack : bool
}.

(** The stand-in: [grid] counts the calls made on the slot; [alloc_rar] is
    given by [rar_fn]; [alloc_ul] reserves the PRBs it is asked for; PRACH
    opportunities are the TTIs of subframe 1. *)
Definition mock (rar_fn : pending_rar_t -> alloc_outcome_t * Z) : Collaborators := {|
  grid := Z;
  sched_ue := mock_ue;
  MAX_RAR_LIST := 8;
  MAX_PHICH_LIST := 8;
  is_in_tti_interval := window_of_spec;
  srslte_tti_interval := fun tti2 tti1 => (tti2 - tti1) mod TTI_PERIOD;
  srslte_prach_tti_opportunity_config_fdd := fun _ tti _ => tti mod 10 =? 1;
  srslte_ra_type2_from_riv := fun riv n _ => (riv / n + 1, riv mod n);
  TTI_RX_ACK := fun tti => (tti + 4) mod TTI_PERIOD;
  grid_new_tti := fun _ _ _ => 0;
  alloc_bc := fun _ _ _ _ g => (SUCCESS, g + 1);
  alloc_paging := fun _ _ _ g => (SUCCESS, g + 1);
  alloc_rar := fun _ _ rar g => (rar_fn rar, g + 1);
  alloc_ul := fun _ ue alloc _ _ mg =>
    (true, ue, (mask_fill (fst alloc) (fst alloc + snd alloc) (fst mg), snd mg + 1));
  alloc_msg3_ok := fun _ _ _ => true;
  dl_mask_fill_all := fun g => g;
  generate_dcis := fun _ db mg => (db, snd mg);
  dl_sched_result_rar := fun _ => [];
  get_cell_index := fun ue _ => (mock_active ue, 0);
  ul_harq_has_pending_ack := fun ue _ _ => mock_has_ack ue;
  ul_harq_get_pending_ack := fun ue _ _ => mock_ack ue;
  finish_tti := fun ue _ _ => ue;
  dl_metric_sched_users := fun _ db g => (db, g);
  ul_metric_sched_users := fun _ db mg => (db, mg);
  rrc_is_paging_opportunity := None
|}.

(** [alloc_rar] of a slot that places at most two grants per call. *)
Definition two_grants_per_call (rar : pending_rar_t) : alloc_outcome_t * Z :=
  (SUCCESS, Z.min (nof_grants rar) 2).

(** [alloc_rar] of a slot that places up to two grants of a RAR that holds
    some, and has no room for one that holds none. *)
Definition grants_or_collision (rar : pending_rar_t) : alloc_outcome_t * Z :=
  if 0 <? nof_grants rar then (SUCCESS, Z.min (nof_grants rar) 2) else (RB_COLLISION, 0).

(** [alloc_rar] of a slot without free resource blocks, and of a slot with
    room for every grant. *)
Definition no_rb_left (_ : pending_rar_t) : alloc_outcome_t * Z := (RB_COLLISION, 0).

Definition grants_all (rar : pending_rar_t) : alloc_outcome_t * Z := (SUCCESS, nof_grants rar).

(** [alloc_rar] of a slot whose PDCCH has no free candidate. *)
Definition no_pdcch_left (_ : pending_rar_t) : alloc_outcome_t * Z := (DCI_COLLISION, 0).

Definition example_cfg : cell_cfg_t :=
  {| sibs := [mk_sib_cfg 18 8]; si_window_ms := 20; prach_rar_window := 10;
     prach_config := 3; prach_freq_offset := 2; nrb_pucch := 2; nof_prb := 25;
     nof_ctrl_symbols := 3; enb_cc_idx := 0 |}.

Definition example_info (tti preamble : Z) : dl_sched_rar_info_t :=
  {| preamble_idx := preamble; ta_cmd := 0; temp_crnti := 70 + preamble; msg3_size := 7;
     info_prach_tti := tti |}.

(** A pending RAR of [n] preambles detected at [tti]. *)
Definition example_rar (tti : Z) (n : nat) : pending_rar_t :=
  {| ra_rnti := 1 + tti mod 10; prach_tti := tti; nof_grants := Z.of_nat n;
     msg3_grant := (example_info tti <$> (Z.of_nat <$> seq 0 n))
                   ++ replicate (8 - n) rar_info_zero |}.

(** A slot of the stand-in bound to [tti]. *)
Definition example_slot (rar_fn : pending_rar_t -> alloc_outcome_t * Z) (tti : Z)
    : @sf_sched (mock rar_fn) :=
  @mk_sf_sched (mock rar_fn) tti 0 [] (replicate 8 phich_zero) 0 0.

(** The broadcast scheduler of a cell with one SIB, in its initial state,
    and the slots of the stand-in in the order of their [tti_rx]. *)
Definition example_bc : @bc_sched.t := bc_sched.mk [bc_sched.sib_zero] 0 0 0 0.

Definition example_slots (t : nat) : @sf_sched (mock two_grants_per_call) :=
  example_slot two_grants_per_call (Z.of_nat t).

(** A carrier scheduler of the stand-in after [carrier_cfg]: a ring of ten
    slots that are bound to no TTI yet, one pending RAR of three preambles
    detected at TTI 100, no DL blackout, and four UEs: two with a pending
    ack (one ACK, one NACK), one that is not active on the carrier, and one
    without a pending ack. *)
Definition example_ue_db : list (Z * mock_ue) :=
  [(70, mk_mock_ue true true true); (71, mk_mock_ue true true false);
   (72, mk_mock_ue false true true); (73, mk_mock_ue true false false)].

Definition example_carrier (blackout : Z) : @carrier_sched.t (mock two_grants_per_call) :=
  @carrier_sched.mk (mock two_grants_per_call)
    (replicate 10 (example_slot two_grants_per_call 20000))
    (ra_sched.mk [example_rar 100 3] 2) example_bc [blackout]
    (@carrier_sched.cfg_pucch_mask example_cfg)
    (@carrier_sched.cfg_prach_mask example_cfg)
    example_ue_db.

(** * Vocabulary of the statements *)

(** The queue is ordered by [prach_tti], from the head on. *)
Definition rars_sorted (q : list pending_rar_t) : Prop :=
  StronglySorted Z.le (prach_tti <$> q).




(** The work left in the queue: one for each RAR, and one for each of its
    grants. *)
Definition rar_work (q : list pending_rar_t) : nat :=
  sum_list_with (fun r => S (Z.to_nat (nof_grants r))) q.


(** The calls [alloc_bc(aggr_lvl, idx, n_tx)] among [evs], as pairs
    [(aggr_lvl, n_tx)]. *)
Definition bc_calls_sib (idx : Z) (evs : list event) : list (Z * Z) :=
  flat_map (fun e => match e with
                     | Call_alloc_bc a i n => if i =? idx then [(a, n)] else []
                     | _ => []
                     end) evs.

Section Drive.
Context `{Collaborators}.

(** The broadcast scheduler after [bc_sched::dl_sched] has run on the slots
    of [tti_rx = 0 .. n - 1], one after the other. *)
Fixpoint bc_run (cfg : cell_cfg_t) (slot_at : nat -> sf_sched) (n : nat) (bs0 : bc_sched.t)
    : bc_sched.t :=
  match n with
  | O => bs0
  | S k => fst (fst (bc_sched.dl_sched cfg (bc_run cfg slot_at k bs0) (slot_at k)))
  end.
End Drive.



Section Sib1State.
Context `{Collaborators}.

End Sib1State.

(** Every PRB of the mask [a] is a PRB of the mask [b]. *)
Definition mask_subset (a b : Z) : Prop := Z.land a b = a.

(** What identifies a slot and its PHICH result: the TTI it is bound to,
    and the PHICH elements of its uplink result. *)
Definition slot_core `{Collaborators} (sf : sf_sched) : Z * list ul_sched_phich_t * Z :=
  (tti_rx sf, ul_phich sf, nof_phich_elems sf).

(** The invocations of [alloc_ul_users] and [alloc_dl_users] among [evs],
    in their order. *)
Definition is_users_call (e : event) : bool :=
  match e with
  | Call_alloc_ul_users | Call_alloc_dl_users => true
  | _ => false
  end.

Definition users_calls (evs : list event) : list event := List.filter is_users_call evs.

Section PhichVocabulary.
Context `{Collaborators}.

(** A UE for which [generate_phich] emits an element: it is active on the
    carrier and its UL HARQ process of [tti_rx] has a pending ack. *)
Definition phich_due (cfg : cell_cfg_t) (tti : Z) (user : Z * sched_ue) : bool :=
  let p := get_cell_index (snd user) (enb_cc_idx cfg) in
  fst p && ul_harq_has_pending_ack (snd user) tti (snd p).

(** The element emitted for it. *)
Definition phich_of (cfg : cell_cfg_t) (tti : Z) (user : Z * sched_ue) : ul_sched_phich_t :=
  let p := get_cell_index (snd user) (enb_cc_idx cfg) in
  mk_phich (if ul_harq_get_pending_ack (snd user) tti (snd p) then ACK else NACK) (fst user).
End PhichVocabulary.

(** The RA-RNTI that [dl_rach_info] derives from a PRACH TTI. *)
Definition rnti_of_tti (tti : Z) : Z := u16 (1 + u16 (u32 tti mod 10)).

(** The queue holds at most one RAR for a PRACH TTI, and every RAR carries
    the RA-RNTI of its PRACH TTI. *)
Definition rars_keyed (q : list pending_rar_t) : Prop :=
  NoDup (prach_tti <$> q) /\ Forall (fun r => ra_rnti r = rnti_of_tti (prach_tti r)) q.

(** The calls [alloc_ul(user, {n_prb, L}, MSG3, mcs)] among [evs], and the
    RNTIs of the warnings about Msg3s whose user no longer exists. *)
Definition alloc_ul_calls (evs : list event) : list (Z * Z * Z * Z) :=
  flat_map (fun e => match e with
                     | Call_alloc_ul rnti n_prb L mcs => [(rnti, n_prb, L, mcs)]
                     | _ => []
                     end) evs.

Definition no_user_warnings (evs : list event) : list Z :=
  flat_map (fun e => match e with Warning_msg3_no_user rnti => [rnti] | _ => [] end) evs.

(** Whether the RNTI of a pending Msg3 is a key of the UE database. *)
Definition msg3_known {U : Type} (db : list (Z * U)) (msg3 : pending_msg3_t) : bool :=
  match ue_db_find (msg3_rnti msg3) db with Some _ => true | None => false end.

(** The Msg3 that [sched_msg3] derives from a grant of a scheduled RAR. *)
Definition msg3_of_grant `{Collaborators} (cfg : cell_cfg_t) (grant : dl_sched_rar_grant_t)
    : pending_msg3_t :=
  mk_pending_msg3 (data_temp_crnti grant)
    (fst (srslte_ra_type2_from_riv (grant_rba grant) (nof_prb cfg) (nof_prb cfg)))
    (snd (srslte_ra_type2_from_riv (grant_rba grant) (nof_prb cfg) (nof_prb cfg)))
    (grant_trunc_mcs grant).

(** The SIB indices of the calls of [alloc_bc] among [evs], in their
    order, and the calls of [alloc_paging] as pairs [(aggr_lvl, payload)]. *)
Definition bc_call_indices (evs : list event) : list Z :=
  flat_map (fun e => match e with Call_alloc_bc _ i _ => [i] | _ => [] end) evs.

Definition paging_calls (evs : list event) : list (Z * Z) :=
  flat_map (fun e => match e with Call_alloc_paging a p => [(a, p)] | _ => [] end) evs.

(** Events of the downlink control schedulers: what [bc_sched::dl_sched],
    [ra_sched::dl_sched] and [ra_sched::sched_msg3] call or write. *)
Definition is_dl_ctrl_event (e : event) : bool :=
  match e with
  | Call_alloc_bc _ _ _ | Call_alloc_paging _ _ | Call_alloc_rar _ _ _
  | Console_rar_window _ _ _ | Error_rar_window _ _ _
  | Error_msg3_failed _ _ | Debug_msg3_queued _ _ => true
  | _ => false
  end.

Definition is_pucch_collision (e : event) : bool :=
  match e with Error_pucch_collision _ _ => true | _ => false end.

(** What [carrier_cfg] and [set_dl_tti_mask] set up in the carrier
    scheduler (the ring of slots, the blackout mask and the two PRB masks),
    and its two control schedulers. *)
Definition carrier_static `{Collaborators} (cs : carrier_sched.t)
    : list sf_sched * list Z * Z * Z :=
  (carrier_sched.sf_scheds cs, carrier_sched.sf_dl_mask cs, carrier_sched.pucch_mask cs,
   carrier_sched.prach_mask cs).

Definition carrier_subs `{Collaborators} (cs : carrier_sched.t) : bc_sched.t * ra_sched.t :=
  (carrier_sched.bc_sched_ptr cs, carrier_sched.ra_sched_ptr cs).

Definition dl_ctrl_events (evs : list event) : list event := List.filter is_dl_ctrl_event evs.

Definition pucch_collisions (evs : list event) : list event :=
  List.filter is_pucch_collision evs.

(** * Properties of the random-access scheduler *)
Section RaProps.
Context `{Collaborators}.

Lemma u32_succ_neq (n : Z) : u32 (n + 1) <> n.
Proof.
  unfold u32. intros E.
  assert (0 <= n < 2 ^ 32) by (rewrite <- E; apply Z.mod_pos_bound; lia).
  destruct (Z.eq_dec (n + 1) (2 ^ 32)) as [E'|NE].
  - rewrite E', Z.mod_same in E by lia. lia.
  - rewrite Z.mod_small in E by lia. lia.
Qed.

Lemma dl_rach_info_find_skip rnti rar_info pre q :
  Forall (fun r => ra_sched.same_rar rnti rar_info r = false) pre ->
  ra_sched.dl_rach_info_find rnti rar_info (pre ++ q)
  = (app pre) <$> ra_sched.dl_rach_info_find rnti rar_info q.
Proof.
  induction 1 as [|r pre Hr _ IH]; simpl.
  - by destruct (ra_sched.dl_rach_info_find _ _ q).
  - rewrite Hr, IH. by destruct (ra_sched.dl_rach_info_find _ _ q).
Qed.


(** [dl_rach_info] has no failure path. *)
Lemma dl_rach_info_returns_success rs rar_info :
  fst (fst (ra_sched.dl_rach_info rs rar_info)) = SRSLTE_SUCCESS.
Proof.
  unfold ra_sched.dl_rach_info.
  by destruct (ra_sched.dl_rach_info_find _ _ _).
Qed.

(** C1, on the code: when the pending RAR matching [(prach_tti, ra_rnti)]
    already holds [MAX_RAR_LIST] preambles, [dl_rach_info] does not fail.  It
    returns [SRSLTE_SUCCESS], the store of the preamble falls on index
    [MAX_RAR_LIST], past the end of [msg3_grant], and [nof_grants] is raised
    to [MAX_RAR_LIST + 1]: the queue is not left unchanged. *)
Theorem dl_rach_info_saturated rs rar_info pre r post :
  ra_sched.pending_rars rs = pre ++ r :: post ->
  Forall (fun r' => ra_sched.same_rar (ra_sched.dl_rach_rnti rar_info) rar_info r' = false) pre ->
  ra_sched.same_rar (ra_sched.dl_rach_rnti rar_info) rar_info r = true ->
  length (msg3_grant r) = MAX_RAR_LIST ->
  nof_grants r = Z.of_nat MAX_RAR_LIST ->
  let r' := mk_pending_rar (ra_rnti r) (prach_tti r) (u32 (Z.of_nat MAX_RAR_LIST + 1))
                           (msg3_grant r) in
  ra_sched.dl_rach_info rs rar_info
  = (SRSLTE_SUCCESS, ra_sched.set_pending_rars rs (pre ++ r' :: post),
     [Info_new_prach rar_info])
  /\ msg3_grant r !! Z.to_nat (nof_grants r) = None
  /\ nof_grants r' <> nof_grants r
  /\ pre ++ r' :: post <> ra_sched.pending_rars rs.
Proof.
  intros Hq Hpre Hr Hlen Hn r'.
  assert (Hne : nof_grants r' <> nof_grants r).
  { subst r'. simpl. rewrite Hn. apply u32_succ_neq. }
  repeat split; [| |done|].
  - unfold ra_sched.dl_rach_info. rewrite Hq, dl_rach_info_find_skip by done.
    simpl. rewrite Hr. simpl. do 4 f_equal.
    unfold ra_sched.add_grant, r'. rewrite Hn.
    rewrite list_insert_ge by (rewrite Hlen; lia). done.
  - apply lookup_ge_None. rewrite Hlen, Hn. lia.
  - rewrite Hq. intros E. apply app_inv_head in E. injection E as E'.
    apply Hne. by apply (f_equal nof_grants) in E'.
Qed.

(** What [dl_rach_info] does when the matching RAR has room, and when no
    RAR matches: the preamble is stored behind the ones already there, or a
    new RAR holding it is put at the tail. *)
Lemma dl_rach_info_appends rs rar_info pre r post :
  ra_sched.pending_rars rs = pre ++ r :: post ->
  Forall (fun r' => ra_sched.same_rar (ra_sched.dl_rach_rnti rar_info) rar_info r' = false) pre ->
  ra_sched.same_rar (ra_sched.dl_rach_rnti rar_info) rar_info r = true ->
  0 <= nof_grants r < Z.of_nat (length (msg3_grant r)) ->
  exists r',
    ra_sched.dl_rach_info rs rar_info
    = (SRSLTE_SUCCESS, ra_sched.set_pending_rars rs (pre ++ r' :: post),
       [Info_new_prach rar_info])
    /\ msg3_grant r' !! Z.to_nat (nof_grants r) = Some rar_info
    /\ (forall k, k <> Z.to_nat (nof_grants r) -> msg3_grant r' !! k = msg3_grant r !! k)
    /\ nof_grants r' = u32 (nof_grants r + 1)
    /\ prach_tti r' = prach_tti r /\ ra_rnti r' = ra_rnti r.
Proof.
  intros Hq Hpre Hr Hn. exists (ra_sched.add_grant rar_info r).
  repeat split.
  - unfold ra_sched.dl_rach_info. rewrite Hq, dl_rach_info_find_skip by done.
    simpl. by rewrite Hr.
  - simpl. apply list_lookup_insert_eq. lia.
  - intros k Hk. simpl. by apply list_lookup_insert_ne.
Qed.



Lemma std_copy_length {A : Type} (count src dst : nat) (a : list A) :
  length (std_copy count src dst a) = length a.
Proof.
  revert src dst a. induction count as [|c IH]; intros src dst a; simpl; [done|].
  destruct (a !! src); [|done]. by rewrite IH, length_insert.
Qed.


(** ** The [while] loop of [dl_sched] *)

Lemma loop_step_exited cfg tti_rx tti aggr st :
  ra_sched.exited st = true -> ra_sched.loop_step cfg tti_rx tti aggr st = st.
Proof. by destruct st as [[[[] [|r q]] g] evs]. Qed.

Lemma loop_iter_exited cfg tti_rx tti aggr n st :
  ra_sched.exited st = true -> ra_sched.loop_iter cfg tti_rx tti aggr n st = st.
Proof.
  intros Hst. induction n as [|n IH]; simpl; [done|].
  by rewrite loop_step_exited.
Qed.

Lemma loop_iter_S_r cfg tti_rx tti aggr n st :
  ra_sched.loop_iter cfg tti_rx tti aggr (S n) st
  = ra_sched.loop_step cfg tti_rx tti aggr (ra_sched.loop_iter cfg tti_rx tti aggr n st).
Proof. revert st. induction n as [|n IH]; intros st; [done|]. simpl in *. by rewrite IH. Qed.

(** A property of the loop state that the initial state has and every
    iteration keeps holds after any number of iterations. *)
Lemma loop_iter_invariant cfg tti_rx tti aggr (P : ra_sched.loop_state -> Prop) st :
  P st ->
  (forall st', P st' -> P (ra_sched.loop_step cfg tti_rx tti aggr st')) ->
  forall n, P (ra_sched.loop_iter cfg tti_rx tti aggr n st).
Proof.
  intros H0 Hstep n. revert st H0. induction n as [|n IH]; intros st H0; simpl; auto.
Qed.

(** The cases of the loop body, by what it leaves in the queue. *)
Lemma dl_sched_body_queue cfg tti_rx tti aggr rar rest g c q g' ev :
  ra_sched.dl_sched_body cfg tti_rx tti aggr rar rest g = (c, q, g', ev) ->
  q = rest \/ q = rar :: rest
  \/ exists n grants, q = mk_pending_rar (ra_rnti rar) (prach_tti rar) n grants :: rest.
Proof.
  unfold ra_sched.dl_sched_body.
  destruct (negb _).
  - destruct (_ <=? _); intros [= <- <- <- <-]; auto.
  - destruct (alloc_rar _ _ _ _) as [[o k] g1]. simpl.
    destruct o; try (intros [= <- <- <- <-]; auto; fail).
    destruct (_ =? _); [intros [= <- <- <- <-]; auto|].
    destruct (_ <? _); intros [= <- <- <- <-]; eauto.
Qed.

Lemma rars_sorted_head r q :
  rars_sorted (r :: q) -> Forall (fun r' => prach_tti r <= prach_tti r') q.
Proof.
  unfold rars_sorted. rewrite fmap_cons. intros Hs.
  apply StronglySorted_inv in Hs as [_ Hall].
  by rewrite Forall_fmap in Hall.
Qed.

Lemma rars_sorted_step cfg tti_rx tti aggr (st : ra_sched.loop_state) :
  rars_sorted (snd (fst (fst st))) ->
  rars_sorted (snd (fst (fst (ra_sched.loop_step cfg tti_rx tti aggr st)))).
Proof.
  destruct st as [[[[] [|rar rest]] g] evs]; simpl; try done.
  destruct (ra_sched.dl_sched_body _ _ _ _ _ _ _) as [[[c q] g'] ev] eqn:Hb. simpl.
  intros Hs. apply dl_sched_body_queue in Hb as [->|[->|(n & grants & ->)]]; try done.
  unfold rars_sorted in *. rewrite fmap_cons in Hs. by apply StronglySorted_inv in Hs as [? _].
Qed.

Lemma dl_rach_info_find_tti rnti rar_info q q' :
  ra_sched.dl_rach_info_find rnti rar_info q = Some q' ->
  prach_tti <$> q' = prach_tti <$> q.
Proof.
  revert q'. induction q as [|r q IH]; intros q'; simpl; [done|].
  destruct (ra_sched.same_rar _ _ r).
  - by intros [= <-].
  - destruct (ra_sched.dl_rach_info_find _ _ q) as [q1|]; [|done].
    intros [= <-]. rewrite !fmap_cons. f_equal. by apply IH.
Qed.

Lemma dl_rach_info_find_some rnti rar_info q :
  Exists (fun r => ra_sched.same_rar rnti rar_info r = true) q ->
  is_Some (ra_sched.dl_rach_info_find rnti rar_info q).
Proof.
  induction 1 as [r q Hr|r q _ IH]; simpl.
  - by rewrite Hr.
  - destruct (ra_sched.same_rar _ _ r); [done|]. destruct IH as [q' ->]. done.
Qed.

Lemma StronglySorted_snoc (l : list Z) (x : Z) :
  StronglySorted Z.le l -> Forall (fun y => y <= x) l -> StronglySorted Z.le (l ++ [x]).
Proof.
  induction 1 as [|y l Hs IH Hall]; intros Hx; simpl.
  - repeat constructor.
  - apply Forall_cons in Hx as [Hy Hx]. constructor; [by apply IH|].
    apply Forall_app. split; [done|]. by constructor.
Qed.

(** C4, as amended: every operation of [ra_sched] keeps a queue that is
    ordered by [prach_tti] ordered, [dl_rach_info] under the condition that
    the PRACH TTI it is given matches a pending RAR or is not below the
    PRACH TTI of any pending RAR.  For [dl_sched] the order holds after every
    iteration of its loop, and so for the queue it returns. *)
Theorem pending_rars_stay_sorted cfg rs :
  rars_sorted (ra_sched.pending_rars rs) ->
  (forall rar_info,
     Exists (fun r => ra_sched.same_rar (ra_sched.dl_rach_rnti rar_info) rar_info r = true)
            (ra_sched.pending_rars rs)
     \/ Forall (fun r => prach_tti r <= info_prach_tti rar_info) (ra_sched.pending_rars rs) ->
     rars_sorted (ra_sched.pending_rars (snd (fst (ra_sched.dl_rach_info rs rar_info)))))
  /\ (forall sf n,
        rars_sorted (snd (fst (fst
          (ra_sched.loop_iter cfg (tti_rx sf) (get_tti_tx_dl sf) 2 n
             (ra_sched.Next, ra_sched.pending_rars rs, sf_grid sf, []))))))
  /\ (forall fuel sf rs' sf' evs,
        ra_sched.dl_sched fuel cfg rs sf = Some (rs', sf', evs) ->
        rars_sorted (ra_sched.pending_rars rs'))
  /\ (forall ue_db sf,
        ra_sched.pending_rars (fst (fst (fst (ra_sched.ul_sched rs ue_db sf))))
        = ra_sched.pending_rars rs)
  /\ rars_sorted (ra_sched.pending_rars (ra_sched.reset rs)).
Proof.
  intros Hs.
  assert (Hloop : forall sf n,
    rars_sorted (snd (fst (fst
      (ra_sched.loop_iter cfg (tti_rx sf) (get_tti_tx_dl sf) 2 n
         (ra_sched.Next, ra_sched.pending_rars rs, sf_grid sf, [])))))).
  { intros sf n.
    apply (loop_iter_invariant _ _ _ _ (fun st => rars_sorted (snd (fst (fst st))))); [done|].
    intros st'. apply rars_sorted_step. }
  split; [|split; [done|split; [|split]]].
  - intros rar_info Hcond. unfold ra_sched.dl_rach_info.
    destruct (ra_sched.dl_rach_info_find _ _ _) as [q'|] eqn:Hf; simpl.
    + unfold rars_sorted. by rewrite (dl_rach_info_find_tti _ _ _ _ Hf).
    + destruct Hcond as [Hex|Hall].
      * apply dl_rach_info_find_some in Hex as [q' Hq']. congruence.
      * unfold rars_sorted. rewrite fmap_app. simpl.
        apply StronglySorted_snoc; [done|]. by rewrite Forall_fmap.
  - intros fuel sf rs' sf' evs. unfold ra_sched.dl_sched.
    specialize (Hloop sf fuel).
    destruct (ra_sched.loop_iter _ _ _ _ _ _) as [[[c q] g] ev].
    destruct (ra_sched.exited _); [|done]. by intros [= <- <- <-].
  - intros ue_db sf. unfold ra_sched.ul_sched.
    by destruct (ra_sched.ul_sched_loop _ _ _ _) as [[db mg] ev].
  - unfold ra_sched.reset, rars_sorted. simpl. constructor.
Qed.

(** ** The RAR window *)

Lemma u32_small (x : Z) : 0 <= x < 2 ^ 32 -> u32 x = x.
Proof. intros. unfold u32. by apply Z.mod_small. Qed.

Section Window.
Variable cfg : cell_cfg_t.
Variables tti_rx tti : Z.
Hypothesis Hwin : forall t lo hi, is_in_tti_interval t lo hi = true <-> lo <= t < hi.
Hypothesis Hw : 0 <= prach_rar_window cfg.



End Window.



(** ** Termination of the loop of [dl_sched] *)

(** C10, on the code: when [alloc_rar] answers [DCI_COLLISION] or [ERROR]
    for the head RAR, which is inside its window, the iteration neither pops
    the RAR, nor lowers its [nof_grants], nor returns: the loop meets the
    same head again and [dl_sched] does not come back, whatever the number of
    iterations it is given. *)
Theorem dl_sched_livelock cfg rs sf rar rest :
  ra_sched.pending_rars rs = rar :: rest ->
  is_in_tti_interval (get_tti_tx_dl sf) (u32 (prach_tti rar + 3))
                     (u32 (prach_tti rar + 3 + prach_rar_window cfg)) = true ->
  (forall g, fst (fst (alloc_rar (tti_rx sf) 2 rar g)) = DCI_COLLISION
             \/ fst (fst (alloc_rar (tti_rx sf) 2 rar g)) = ERROR) ->
  (forall g evs,
     exists g', ra_sched.loop_step cfg (tti_rx sf) (get_tti_tx_dl sf) 2
                  (ra_sched.Next, rar :: rest, g, evs)
                = (ra_sched.Next, rar :: rest, g',
                   evs ++ [Call_alloc_rar 2 rar (fst (alloc_rar (tti_rx sf) 2 rar g))]))
  /\ forall fuel, ra_sched.dl_sched fuel cfg rs sf = None.
Proof.
  intros Hq Hwin Hout.
  assert (Hstep : forall g evs,
     exists g', ra_sched.loop_step cfg (tti_rx sf) (get_tti_tx_dl sf) 2
                  (ra_sched.Next, rar :: rest, g, evs)
                = (ra_sched.Next, rar :: rest, g',
                   evs ++ [Call_alloc_rar 2 rar (fst (alloc_rar (tti_rx sf) 2 rar g))])).
  { intros g evs. simpl. unfold ra_sched.dl_sched_body. rewrite Hwin. simpl.
    specialize (Hout g). destruct (alloc_rar _ _ _ _) as [[o k] g1]. simpl in *.
    exists g1. by destruct Hout as [-> | ->]. }
  split; [done|].
  assert (Hiter : forall fuel g evs,
     exists g' evs', ra_sched.loop_iter cfg (tti_rx sf) (get_tti_tx_dl sf) 2 fuel
                       (ra_sched.Next, rar :: rest, g, evs)
                     = (ra_sched.Next, rar :: rest, g', evs')).
  { induction fuel as [|fuel IH]; intros g evs; [by eexists _, _|].
    cbn [ra_sched.loop_iter]. destruct (Hstep g evs) as [g' ->]. apply IH. }
  intros fuel. unfold ra_sched.dl_sched. rewrite Hq.
  by destruct (Hiter fuel (sf_grid sf) []) as (g' & evs' & ->).
Qed.

(** When [alloc_rar] returns [(SUCCESS, 0)] for a RAR that holds grants, the
    iteration leaves the queue as it is and the loop goes on. *)
Lemma dl_sched_body_success_zero cfg tti_rx tti aggr rar rest g g' :
  is_in_tti_interval tti (u32 (prach_tti rar + 3))
                     (u32 (prach_tti rar + 3 + prach_rar_window cfg)) = true ->
  alloc_rar tti_rx aggr rar g = ((SUCCESS, 0), g') ->
  nof_grants rar <> 0 ->
  ra_sched.dl_sched_body cfg tti_rx tti aggr rar rest g
  = (ra_sched.Next, rar :: rest, g', [Call_alloc_rar aggr rar (SUCCESS, 0)]).
Proof.
  intros Hwin Hrar Hn. unfold ra_sched.dl_sched_body. rewrite Hwin, Hrar. simpl.
  by destruct (nof_grants rar).
Qed.

Lemma u32_le (x : Z) : 0 <= x -> 0 <= u32 x <= x.
Proof.
  intros Hx. unfold u32. split; [apply Z.mod_pos_bound; lia|].
  apply Z.mod_le; lia.
Qed.

(** Under a contract of [alloc_rar] (it answers [RB_COLLISION], or [SUCCESS]
    with [0 < granted <= nof_grants]), an iteration leaves the loop or
    lowers the work left. *)
Lemma loop_step_progress cfg tti_rx tti aggr rar rest g evs :
  (forall r g0, match fst (alloc_rar tti_rx aggr r g0) with
                | (RB_COLLISION, _) => True
                | (SUCCESS, n) => 0 < n <= nof_grants r
                | _ => False
                end) ->
  let st' := ra_sched.loop_step cfg tti_rx tti aggr (ra_sched.Next, rar :: rest, g, evs) in
  ra_sched.exited st' = true \/ (rar_work (snd (fst (fst st'))) < rar_work (rar :: rest))%nat.
Proof.
  intros Hc. simpl. unfold ra_sched.dl_sched_body.
  destruct (negb _).
  - destruct (_ <=? _); simpl; [right; lia|by left].
  - specialize (Hc rar g). destruct (alloc_rar _ _ _ _) as [[o n] g1]. simpl in *.
    destruct o; try done; [|by left].
    destruct (Z.eqb_spec n (nof_grants rar)); simpl; [right; lia|].
    destruct (Z.ltb_spec 0 n); [|lia]. simpl. right.
    pose proof (u32_le (nof_grants rar - n)). lia.
Qed.

(** Under that contract [dl_sched] returns, within as many iterations as
    there is work in the queue, plus one. *)
Theorem dl_sched_terminates cfg rs sf :
  (forall r g0, match fst (alloc_rar (tti_rx sf) 2 r g0) with
                | (RB_COLLISION, _) => True
                | (SUCCESS, n) => 0 < n <= nof_grants r
                | _ => False
                end) ->
  is_Some (ra_sched.dl_sched (S (rar_work (ra_sched.pending_rars rs))) cfg rs sf).
Proof.
  intros Hc.
  assert (Hex : forall m st, (rar_work (snd (fst (fst st))) <= m)%nat ->
    ra_sched.exited (ra_sched.loop_iter cfg (tti_rx sf) (get_tti_tx_dl sf) 2 (S m) st) = true).
  { induction m as [|m IH]; intros [[[c q] g] evs] Hm; simpl in Hm.
    - destruct q as [|r q]; [|simpl in Hm; lia]. by destruct c.
    - destruct (ra_sched.exited (c, q, g, evs)) eqn:He; [by rewrite loop_iter_exited|].
      destruct c, q as [|r q]; try done.
      change (ra_sched.exited
                (ra_sched.loop_iter cfg (tti_rx sf) (get_tti_tx_dl sf) 2 (S m)
                   (ra_sched.loop_step cfg (tti_rx sf) (get_tti_tx_dl sf) 2
                      (ra_sched.Next, r :: q, g, evs))) = true).
      destruct (loop_step_progress cfg (tti_rx sf) (get_tti_tx_dl sf) 2 r q g evs Hc)
        as [Hdone|Hless].
      + by rewrite loop_iter_exited.
      + apply IH. lia. }
  unfold ra_sched.dl_sched.
  rewrite (Hex (rar_work (ra_sched.pending_rars rs))) by (simpl; lia).
  by destruct (ra_sched.loop_iter _ _ _ _ _ _) as [[[c q] g] evs].
Qed.
End RaProps.

(** ** The random-access scheduler on concrete inputs *)


(** The ninth preamble of one PRACH occasion, with [MAX_RAR_LIST = 8]:
    [dl_rach_info] reports success and counts nine grants. *)
Lemma dl_rach_info_saturated_witness :
  ra_sched.dl_rach_info (H := mock two_grants_per_call)
    (ra_sched.mk [example_rar 100 8] 2) (example_info 100 8)
  = (SRSLTE_SUCCESS,
     ra_sched.mk [mk_pending_rar 1 100 9 (msg3_grant (example_rar 100 8))] 2,
     [Info_new_prach (example_info 100 8)]).
Proof.
  exact (proj1 (dl_rach_info_saturated (H := mock two_grants_per_call)
                  (ra_sched.mk [example_rar 100 8] 2) (example_info 100 8)
                  [] (example_rar 100 8) []
                  eq_refl ltac:(constructor) eq_refl eq_refl eq_refl)).
Defined.




(** Two PRACH detections in arrival order, on both sides of the wrap of
    the TTI counter at 10240: both calls succeed and leave the younger RAR,
    with the smaller [prach_tti], behind the older one. *)
Lemma dl_rach_info_breaks_order :
  let rs0 := ra_sched.mk [] 2 in
  let r1 := ra_sched.dl_rach_info (H := mock two_grants_per_call) rs0 (example_info 10239 1) in
  let r2 := ra_sched.dl_rach_info (H := mock two_grants_per_call) (snd (fst r1))
                                  (example_info 2 1) in
  rars_sorted (ra_sched.pending_rars (snd (fst r1)))
  /\ fst (fst r2) = SRSLTE_SUCCESS
  /\ prach_tti <$> ra_sched.pending_rars (snd (fst r2)) = [10239; 2]
  /\ ~ rars_sorted (ra_sched.pending_rars (snd (fst r2))).
Proof.
  simpl. split; [repeat constructor|]. split; [reflexivity|]. split; [reflexivity|].
  unfold rars_sorted. simpl. intros Hs.
  apply StronglySorted_inv in Hs as [_ Hall].
  apply Forall_cons in Hall as [Hle _]. lia.
Qed.

Lemma pending_rars_stay_sorted_witness :
  rars_sorted
    (ra_sched.pending_rars
       (snd (fst (ra_sched.dl_rach_info (H := mock two_grants_per_call)
                    (ra_sched.mk [example_rar 100 1; example_rar 101 1] 2)
                    (example_info 102 5))))).
Proof.
  refine (proj1 (pending_rars_stay_sorted (H := mock two_grants_per_call) example_cfg
                   (ra_sched.mk [example_rar 100 1; example_rar 101 1] 2) _)
                (example_info 102 5) _).
  - unfold rars_sorted. simpl. repeat constructor; lia.
  - right. simpl. repeat first [apply Forall_cons_2 | apply Forall_nil_2]; simpl; lia.
Defined.

(** A RAR inside its window and a slot whose PDCCH is full: [dl_sched] has
    not returned after a thousand iterations. *)
Lemma dl_sched_livelock_witness :
  ra_sched.dl_sched (H := mock no_pdcch_left) 1000 example_cfg
    (ra_sched.mk [example_rar 100 1] 2) (example_slot no_pdcch_left 100) = None.
Proof.
  exact (proj2 (dl_sched_livelock (H := mock no_pdcch_left) example_cfg
                  (ra_sched.mk [example_rar 100 1] 2) (example_slot no_pdcch_left 100)
                  (example_rar 100 1) [] eq_refl eq_refl (fun g => or_introl eq_refl))
               1000%nat).
Defined.

(** * Properties of the broadcast scheduler *)
Section BcProps.
Context `{Collaborators}.

Lemma bc_calls_sib_app idx evs1 evs2 :
  bc_calls_sib idx (evs1 ++ evs2) = bc_calls_sib idx evs1 ++ bc_calls_sib idx evs2.
Proof. apply flat_map_app. Qed.


Lemma alloc_paging_no_bc bs sf idx :
  bc_calls_sib idx (snd (bc_sched.alloc_paging bs sf)) = [].
Proof.
  unfold bc_sched.alloc_paging. destruct rrc_is_paging_opportunity as [f|]; [|done].
  destruct (f _) as [o p]. destruct (_ && _); [|done].
  by destruct (alloc_paging _ _ _ _).
Qed.








End BcProps.

(** ** The broadcast scheduler on concrete inputs *)


(** The scenario of the spec: one SIB of 18 bytes with a period of 8
    frames, driven over [tti_rx = 0 .. 160].  [alloc_bc] is called once on
    each of the slots of [tti_tx_dl = 5, 25, ..., 145], the subframes 5 of the
    frames 0, 2, ..., 14, with [n_tx = 0, 1, 2, 3, 0, 1, 2, 3], and on no
    other slot. *)
Example sib1_cadence_0_160 :
  omap (fun t =>
          match snd (bc_sched.dl_sched (H := mock two_grants_per_call) example_cfg
                       (bc_run example_cfg example_slots t example_bc) (example_slots t))
          with
          | [] => None
          | evs => Some (Z.of_nat t + FDD_TX_DELAY, evs)
          end) (seq 0 161)
  = [(5, [Call_alloc_bc 2 0 0]); (25, [Call_alloc_bc 2 0 1]);
     (45, [Call_alloc_bc 2 0 2]); (65, [Call_alloc_bc 2 0 3]);
     (85, [Call_alloc_bc 2 0 0]); (105, [Call_alloc_bc 2 0 1]);
     (125, [Call_alloc_bc 2 0 2]); (145, [Call_alloc_bc 2 0 3])].
Proof. vm_compute. reflexivity. Qed.

(** * Properties of the carrier scheduler *)

Lemma mask_subset_refl a : mask_subset a a.
Proof. apply Z.land_diag. Qed.

Lemma mask_subset_trans a b c : mask_subset a b -> mask_subset b c -> mask_subset a c.
Proof.
  unfold mask_subset. intros Hab Hbc.
  rewrite <- Hab at 1. rewrite <- Z.land_assoc, Hbc. exact Hab.
Qed.

Lemma mask_subset_lor_l a b : mask_subset a (Z.lor a b).
Proof.
  unfold mask_subset. apply Z.bits_inj'. intros i Hi.
  rewrite Z.land_spec, Z.lor_spec. by destruct (Z.testbit a i), (Z.testbit b i).
Qed.

Lemma mask_subset_lor_r a b : mask_subset b (Z.lor a b).
Proof. rewrite Z.lor_comm. apply mask_subset_lor_l. Qed.

Lemma mask_subset_testbit a b i :
  mask_subset a b -> Z.testbit a i = true -> Z.testbit b i = true.
Proof.
  unfold mask_subset. intros Hab Ha. rewrite <- Hab, Z.land_spec in Ha.
  by apply andb_true_iff in Ha as [_ ?].
Qed.

(** The bits that [bounded_bitset::fill] sets. *)
Lemma mask_fill_testbit lo hi m i :
  0 <= lo -> 0 <= i ->
  Z.testbit (mask_fill lo hi m) i = Z.testbit m i || ((lo <=? i) && (i <? hi)).
Proof.
  intros Hlo Hi. unfold mask_fill. rewrite Z.lor_spec, Z.shiftl_spec by lia. f_equal.
  destruct (Z.leb_spec lo i); simpl.
  - destruct (Z.ltb_spec i hi).
    + rewrite Z.ones_spec_low; [done|lia].
    + rewrite Z.ones_spec_high; [done|lia].
  - apply Z.testbit_neg_r. lia.
Qed.

Section CarrierProps.
Context `{Collaborators}.

(** The PRBs of the two masks that [carrier_cfg] computes. *)
Lemma cfg_pucch_mask_testbit cfg i :
  0 < nrb_pucch cfg <= nof_prb cfg -> nof_prb cfg < 2 ^ 32 -> 0 <= i ->
  Z.testbit (carrier_sched.cfg_pucch_mask cfg) i
  = (i <? nrb_pucch cfg) || ((nof_prb cfg - nrb_pucch cfg <=? i) && (i <? nof_prb cfg)).
Proof.
  intros Hn Hp Hi. unfold carrier_sched.cfg_pucch_mask.
  destruct (Z.ltb_spec 0 (nrb_pucch cfg)); [|lia].
  rewrite !u32_small by lia. rewrite !mask_fill_testbit by lia.
  rewrite Z.testbit_0_l. simpl.
  by destruct (Z.leb_spec 0 i); [|lia].
Qed.

Lemma cfg_prach_mask_testbit cfg i :
  0 <= prach_freq_offset cfg -> prach_freq_offset cfg + 6 < 2 ^ 32 -> 0 <= i ->
  Z.testbit (carrier_sched.cfg_prach_mask cfg) i
  = (prach_freq_offset cfg <=? i) && (i <? prach_freq_offset cfg + 6).
Proof.
  intros Ho Hp Hi. unfold carrier_sched.cfg_prach_mask.
  rewrite !u32_small by lia. rewrite !mask_fill_testbit by lia.
  by rewrite Z.testbit_0_l.
Qed.

(** [ra_sched::ul_sched] only adds PRBs to the uplink mask when [alloc_ul]
    only adds PRBs. *)
Lemma ul_sched_loop_mask tti q db mg :
  (forall t ue alloc ty mcs mg0,
     mask_subset (fst mg0) (fst (snd (alloc_ul t ue alloc ty mcs mg0)))) ->
  mask_subset (fst mg) (fst (snd (fst (ra_sched.ul_sched_loop tti q db mg)))).
Proof.
  intros Hul. revert db mg. induction q as [|msg3 q IH]; intros db mg; simpl.
  - apply mask_subset_refl.
  - destruct (ue_db_find _ _) as [user|].
    + specialize (Hul tti user (msg3_n_prb msg3, msg3_L msg3) MSG3 (msg3_mcs msg3) mg).
      destruct (alloc_ul _ _ _ _ _ _) as [[ok user'] mg1]. simpl in Hul.
      specialize (IH (ue_db_set (msg3_rnti msg3) user' db) mg1).
      destruct (ra_sched.ul_sched_loop _ _ _ _) as [[db' mg2] ev]. simpl in *.
      by eapply mask_subset_trans.
    + specialize (IH db mg).
      by destruct (ra_sched.ul_sched_loop _ _ _ _) as [[db' mg2] ev].
Qed.

(** C6: when the slot's allocation primitive [alloc_ul] and the UL metric
    only add PRBs to the uplink mask, then after [alloc_ul_users] the
    [ul_mask] of the slot contains [pucch_mask]; it also contains
    [prach_mask] when [tti_tx_ul] is a PRACH opportunity; and for a cell of
    more than 6 PRBs, any PRB shared by [ul_mask] and [pucch_mask] just
    before the step [ul_mask |= pucch_mask] is reported by the error message
    of the collision.  With the masks that [carrier_cfg] computes these are
    the [nrb_pucch] PRBs at each end of the band and the 6 PRBs from
    [prach_freq_offset] on. *)
Theorem alloc_ul_users_reserves cfg cs sf :
  (forall t ue alloc ty mcs mg0,
     mask_subset (fst mg0) (fst (snd (alloc_ul t ue alloc ty mcs mg0)))) ->
  (forall t db mg0, mask_subset (fst mg0) (fst (snd (ul_metric_sched_users t db mg0)))) ->
  let pre := carrier_sched.alloc_ul_users_pre cfg cs sf in
  let r := carrier_sched.alloc_ul_users cfg cs sf in
  let ul_mask' := ul_mask (snd (fst r)) in
  fst (fst (fst r)) = SRSLTE_SUCCESS
  /\ mask_subset (carrier_sched.pucch_mask cs) ul_mask'
  /\ (srslte_prach_tti_opportunity_config_fdd (prach_config cfg) (get_tti_tx_ul sf) (-1) = true ->
      mask_subset (carrier_sched.prach_mask cs) ul_mask')
  /\ (6 < nof_prb cfg ->
      Z.land (ul_mask (snd (fst pre))) (carrier_sched.pucch_mask cs) <> 0 ->
      In (Error_pucch_collision (ul_mask (snd (fst pre))) (carrier_sched.pucch_mask cs))
         (snd r))
  /\ (carrier_sched.pucch_mask cs = carrier_sched.cfg_pucch_mask cfg ->
      0 < nrb_pucch cfg <= nof_prb cfg -> nof_prb cfg < 2 ^ 32 ->
      forall i, 0 <= i < nrb_pucch cfg \/ nof_prb cfg - nrb_pucch cfg <= i < nof_prb cfg ->
                Z.testbit ul_mask' i = true)
  /\ (carrier_sched.prach_mask cs = carrier_sched.cfg_prach_mask cfg ->
      srslte_prach_tti_opportunity_config_fdd (prach_config cfg) (get_tti_tx_ul sf) (-1) = true ->
      0 <= prach_freq_offset cfg -> prach_freq_offset cfg + 6 < 2 ^ 32 ->
      forall i, prach_freq_offset cfg <= i < prach_freq_offset cfg + 6 ->
                Z.testbit ul_mask' i = true).
Proof.
  intros Hul Hmetric pre r ul_mask'.
  (* the state before the PUCCH check *)
  assert (Hpre : carrier_sched.pucch_mask (fst (fst pre)) = carrier_sched.pucch_mask cs
                 /\ (srslte_prach_tti_opportunity_config_fdd (prach_config cfg)
                       (get_tti_tx_ul sf) (-1) = true ->
                     mask_subset (carrier_sched.prach_mask cs) (ul_mask (snd (fst pre))))).
  { subst pre. unfold carrier_sched.alloc_ul_users_pre, ra_sched.ul_sched.
    destruct (srslte_prach_tti_opportunity_config_fdd _ _ _).
    - pose proof (ul_sched_loop_mask (tti_rx (set_ul_mask sf (carrier_sched.prach_mask cs)))
                    (pending_msg3 (set_ul_mask sf (carrier_sched.prach_mask cs)))
                    (carrier_sched.ue_db cs)
                    (ul_mask (set_ul_mask sf (carrier_sched.prach_mask cs)),
                     sf_grid (set_ul_mask sf (carrier_sched.prach_mask cs))) Hul) as Hm.
      destruct (ra_sched.ul_sched_loop _ _ _ _) as [[db mg] ev]. simpl in *.
      split; [done|]. by intros _.
    - destruct (ra_sched.ul_sched_loop _ _ _ _) as [[db mg] ev]. simpl. split; [done|].
      intros [=]. }
  destruct Hpre as [Hpucch Hprach].
  assert (Hafter : mask_subset (Z.lor (ul_mask (snd (fst pre))) (carrier_sched.pucch_mask cs))
                               ul_mask'
                   /\ fst (fst (fst r)) = SRSLTE_SUCCESS
                   /\ (6 < nof_prb cfg ->
                       Z.land (ul_mask (snd (fst pre))) (carrier_sched.pucch_mask cs) <> 0 ->
                       In (Error_pucch_collision (ul_mask (snd (fst pre)))
                                                 (carrier_sched.pucch_mask cs)) (snd r))).
  { subst ul_mask' r. unfold carrier_sched.alloc_ul_users. fold pre.
    destruct pre as [[cs2 sf2] ev2]. simpl in Hpucch |- *. rewrite Hpucch.
    match goal with |- context [ul_metric_sched_users ?t ?db ?mg] =>
      pose proof (Hmetric t db mg) as Hm; destruct (ul_metric_sched_users t db mg) as [db' mg']
    end. simpl in *. split; [exact Hm|]. split; [done|].
    intros Hprb Hcol. right. apply in_or_app. right.
    destruct (Z.eqb_spec (nof_prb cfg) 6); [lia|].
    unfold mask_any. destruct (Z.eqb_spec (Z.land (ul_mask sf2) (carrier_sched.pucch_mask cs)) 0);
      [done|]. simpl. by left. }
  destruct Hafter as (Hsub & Hret & Hcol).
  assert (Hp1 : mask_subset (carrier_sched.pucch_mask cs) ul_mask').
  { eapply mask_subset_trans; [apply mask_subset_lor_r|exact Hsub]. }
  assert (Hp2 : srslte_prach_tti_opportunity_config_fdd (prach_config cfg)
                  (get_tti_tx_ul sf) (-1) = true ->
                mask_subset (carrier_sched.prach_mask cs) ul_mask').
  { intros Ho. eapply mask_subset_trans; [exact (Hprach Ho)|].
    eapply mask_subset_trans; [apply mask_subset_lor_l|exact Hsub]. }
  repeat split; try done.
  - intros Hm Hn Hb i Hi. apply (mask_subset_testbit _ _ _ Hp1).
    rewrite Hm, cfg_pucch_mask_testbit by lia.
    destruct Hi as [Hi|Hi].
    + destruct (Z.ltb_spec i (nrb_pucch cfg)); [done|lia].
    + destruct (Z.leb_spec (nof_prb cfg - nrb_pucch cfg) i), (Z.ltb_spec i (nof_prb cfg));
        try lia; apply orb_true_r.
  - intros Hm Ho H0 Hb i Hi. apply (mask_subset_testbit _ _ _ (Hp2 Ho)).
    rewrite Hm, cfg_prach_mask_testbit by lia.
    destruct (Z.leb_spec (prach_freq_offset cfg) i), (Z.ltb_spec i (prach_freq_offset cfg + 6));
      try lia; done.
Qed.

(** ** PHICH *)

Lemma generate_phich_loop_cons cfg tti user db nof arr :
  carrier_sched.generate_phich_loop cfg tti (user :: db) nof arr
  = if phich_due cfg tti user then
      let r := carrier_sched.generate_phich_loop cfg tti db (u32 (nof + 1))
                 (<[Z.to_nat nof := phich_of cfg tti user]> arr) in
      (fst (fst r), snd (fst r),
       Debug_phich (fst user) (phich (phich_of cfg tti user)) :: snd r)
    else carrier_sched.generate_phich_loop cfg tti db nof arr.
Proof.
  destruct user as [rnti user]. unfold phich_due, phich_of. simpl.
  destruct (get_cell_index user (enb_cc_idx cfg)) as [[] idx]; simpl; [|done].
  destruct (ul_harq_has_pending_ack user tti idx); [|done].
  by destruct (carrier_sched.generate_phich_loop _ _ _ _ _) as [[nof' arr'] ev].
Qed.

(** The loop of [generate_phich]: it counts the UEs that are due, stores
    their elements in the order of the UE database behind the ones already
    there, and writes one debug line for each. *)
Lemma generate_phich_loop_spec cfg tti db nof arr :
  0 <= nof -> nof + Z.of_nat (length db) < 2 ^ 32 ->
  fst (fst (carrier_sched.generate_phich_loop cfg tti db nof arr))
  = nof + Z.of_nat (length (List.filter (phich_due cfg tti) db))
  /\ length (snd (fst (carrier_sched.generate_phich_loop cfg tti db nof arr))) = length arr
  /\ (forall k, (k < Z.to_nat nof)%nat ->
        snd (fst (carrier_sched.generate_phich_loop cfg tti db nof arr)) !! k = arr !! k)
  /\ (forall k user, List.filter (phich_due cfg tti) db !! k = Some user ->
        (Z.to_nat nof + k < length arr)%nat ->
        snd (fst (carrier_sched.generate_phich_loop cfg tti db nof arr))
          !! (Z.to_nat nof + k)%nat
        = Some (phich_of cfg tti user))
  /\ snd (carrier_sched.generate_phich_loop cfg tti db nof arr)
     = (fun user => Debug_phich (fst user) (phich (phich_of cfg tti user)))
         <$> List.filter (phich_due cfg tti) db.
Proof.
  revert nof arr. induction db as [|user db IH]; intros nof arr Hnof Hlen.
  - simpl. repeat split; try done. lia.
  - rewrite generate_phich_loop_cons. simpl in Hlen. simpl List.filter.
    destruct (phich_due cfg tti user); [|apply IH; lia].
    rewrite (u32_small (nof + 1)) by lia.
    specialize (IH (nof + 1) (<[Z.to_nat nof := phich_of cfg tti user]> arr)).
    destruct IH as (Hn & Hl & Hlow & Hk & Hev); [lia|lia|].
    destruct (carrier_sched.generate_phich_loop _ _ _ _ _) as [[nof' arr'] ev].
    cbn [fst snd length] in *.
    rewrite length_insert in Hl, Hk.
    split; [lia|]. split; [done|]. split; [|split].
    + intros k Hlt. rewrite Hlow by lia. by rewrite list_lookup_insert_ne by lia.
    + intros [|k] u Hu Hb.
      * injection Hu as <-. rewrite Nat.add_0_r. rewrite Hlow by lia.
        by rewrite list_lookup_insert_eq by lia.
      * simpl in Hu. replace (Z.to_nat nof + S k)%nat with (Z.to_nat (nof + 1) + k)%nat by lia.
        apply Hk; [done|lia].
    + by rewrite Hev.
Qed.

Lemma users_calls_app evs1 evs2 :
  users_calls (evs1 ++ evs2) = users_calls evs1 ++ users_calls evs2.
Proof. apply List.filter_app. Qed.

Lemma users_calls_none evs :
  Forall (fun e => is_users_call e = false) evs -> users_calls evs = [].
Proof.
  induction 1 as [|e evs He _ IH]; [done|]. unfold users_calls in *. simpl. by rewrite He.
Qed.

Lemma generate_phich_core cfg db sf :
  tti_rx (fst (carrier_sched.generate_phich cfg db sf)) = tti_rx sf
  /\ users_calls (snd (carrier_sched.generate_phich cfg db sf)) = [].
Proof.
  unfold carrier_sched.generate_phich.
  assert (forall tti nof arr,
            users_calls (snd (carrier_sched.generate_phich_loop cfg tti db nof arr)) = []) as Hev.
  { intros tti. induction db as [|user db IH]; intros nof arr; [done|].
    rewrite generate_phich_loop_cons. destruct (phich_due _ _ _); [|apply IH].
    simpl. apply IH. }
  specialize (Hev (get_tti_rx sf) 0 (ul_phich sf)).
  by destruct (carrier_sched.generate_phich_loop _ _ _ _ _) as [[nof' arr'] ev].
Qed.

(** ** What each step of [generate_tti_result] leaves alone

    No step rebinds the slot or writes its PHICH result, none touches the
    ring of slots, and only [alloc_ul_users] and [alloc_dl_users] announce
    themselves. *)

Lemma alloc_sibs_from_users cfg aggr sfn sf_idx tti_rx tti i ps g :
  users_calls (snd (bc_sched.alloc_sibs_from cfg aggr sfn sf_idx tti_rx tti i ps g)) = [].
Proof.
  revert i g. induction ps as [|sib ps IH]; intros i g; simpl; [done|].
  destruct (bc_sched.sib_fires _ _ _ _ _ _).
  - destruct (alloc_bc _ _ _ _ _) as [o g1]. specialize (IH (S i) g1).
    by destruct (bc_sched.alloc_sibs_from _ _ _ _ _ _ _ _ _) as [[ps' g2] ev].
  - specialize (IH (S i) g).
    by destruct (bc_sched.alloc_sibs_from _ _ _ _ _ _ _ _ _) as [[ps' g2] ev].
Qed.

Lemma bc_dl_sched_frame cfg bs sf :
  slot_core (snd (fst (bc_sched.dl_sched cfg bs sf))) = slot_core sf
  /\ users_calls (snd (bc_sched.dl_sched cfg bs sf)) = [].
Proof.
  unfold bc_sched.dl_sched, bc_sched.alloc_sibs.
  match goal with |- context [bc_sched.alloc_sibs_from ?c ?a ?s ?x ?t ?d ?i ?ps ?g] =>
    pose proof (alloc_sibs_from_users c a s x t d i ps g) as Hs;
    destruct (bc_sched.alloc_sibs_from c a s x t d i ps g) as [[ps' g2] ev2] end.
  unfold bc_sched.alloc_paging.
  destruct rrc_is_paging_opportunity as [f|]; simpl in *.
  - destruct (f _) as [o p]. destruct (_ && _); simpl.
    + destruct (alloc_paging _ _ _ _) as [o' g3]. simpl.
      by rewrite users_calls_app, Hs.
    + by rewrite users_calls_app, Hs.
  - by rewrite users_calls_app, Hs.
Qed.

Lemma dl_sched_body_users cfg tti_rx tti aggr rar rest g :
  users_calls (snd (ra_sched.dl_sched_body cfg tti_rx tti aggr rar rest g)) = [].
Proof.
  unfold ra_sched.dl_sched_body. destruct (negb _).
  - by destruct (_ <=? _).
  - destruct (alloc_rar _ _ _ _) as [[o k] g1]. simpl.
    destruct o; try done. destruct (_ =? _); [done|]. by destruct (_ <? _).
Qed.

Lemma ra_dl_sched_frame fuel cfg rs sf rs' sf' ev :
  ra_sched.dl_sched fuel cfg rs sf = Some (rs', sf', ev) ->
  slot_core sf' = slot_core sf /\ users_calls ev = [].
Proof.
  unfold ra_sched.dl_sched.
  pose proof (loop_iter_invariant cfg (tti_rx sf) (get_tti_tx_dl sf) 2
                (fun st => users_calls (snd st) = [])
                (ra_sched.Next, ra_sched.pending_rars rs, sf_grid sf, []) eq_refl) as Hinv.
  specialize (Hinv ltac:(
    intros [[[[] [|rar rest]] g] evs] Hev; simpl in *; try done;
    pose proof (dl_sched_body_users cfg (tti_rx sf) (get_tti_tx_dl sf) 2 rar rest g) as Hb;
    destruct (ra_sched.dl_sched_body _ _ _ _ _ _ _) as [[[c q] g'] ev0]; simpl in *;
    by rewrite users_calls_app, Hev, Hb) fuel).
  destruct (ra_sched.loop_iter _ _ _ _ _ _) as [[[c q] g] evs].
  destruct (ra_sched.exited _); [|done]. by intros [= <- <- <-].
Qed.

Lemma dl_ctrl_frame fuel cfg dl_active cs sf cs' sf' ev :
  carrier_sched.dl_ctrl fuel cfg dl_active cs sf = Some (cs', sf', ev) ->
  slot_core sf' = slot_core sf
  /\ carrier_sched.sf_scheds cs' = carrier_sched.sf_scheds cs
  /\ users_calls ev = [].
Proof.
  unfold carrier_sched.dl_ctrl. destruct dl_active; [|by intros [= <- <- <-]].
  destruct (bc_dl_sched_frame cfg (carrier_sched.bc_sched_ptr cs) sf) as [Hc1 He1].
  destruct (bc_sched.dl_sched _ _ _) as [[bs sf1] ev1]. simpl in *.
  destruct (ra_sched.dl_sched _ _ _ _) as [[[rs sf2] ev2]|] eqn:Hra; [|done].
  apply ra_dl_sched_frame in Hra as [Hc2 He2].
  intros [= <- <- <-]. rewrite users_calls_app, He1, He2, Hc2, Hc1. done.
Qed.

Lemma ul_sched_loop_users tti q db mg :
  users_calls (snd (ra_sched.ul_sched_loop tti q db mg)) = [].
Proof.
  revert db mg. induction q as [|msg3 q IH]; intros db mg; simpl; [done|].
  destruct (ue_db_find _ _) as [user|].
  - destruct (alloc_ul _ _ _ _ _ _) as [[ok user'] mg1].
    specialize (IH (ue_db_set (msg3_rnti msg3) user' db) mg1).
    destruct (ra_sched.ul_sched_loop _ _ _ _) as [[db' mg2] ev]. simpl in *.
    by destruct ok.
  - specialize (IH db mg).
    by destruct (ra_sched.ul_sched_loop _ _ _ _) as [[db' mg2] ev].
Qed.

Lemma alloc_ul_users_frame cfg cs sf :
  let r := carrier_sched.alloc_ul_users cfg cs sf in
  slot_core (snd (fst r)) = slot_core sf
  /\ carrier_sched.sf_scheds (snd (fst (fst r))) = carrier_sched.sf_scheds cs
  /\ carrier_sched.sf_dl_mask (snd (fst (fst r))) = carrier_sched.sf_dl_mask cs
  /\ users_calls (snd r) = [Call_alloc_ul_users].
Proof.
  unfold carrier_sched.alloc_ul_users, carrier_sched.alloc_ul_users_pre, ra_sched.ul_sched.
  destruct (srslte_prach_tti_opportunity_config_fdd _ _ _).
  - match goal with |- context [ra_sched.ul_sched_loop ?t ?q ?db ?mg] =>
      pose proof (ul_sched_loop_users t q db mg) as Hu;
      destruct (ra_sched.ul_sched_loop t q db mg) as [[db' mg'] ev] end.
    match goal with |- context [ul_metric_sched_users ?t ?db ?mg] =>
      destruct (ul_metric_sched_users t db mg) as [db'' mg''] end.
    simpl in *. repeat split; try done.
    unfold users_calls in *. simpl. rewrite !List.filter_app, Hu. simpl.
    by destruct (_ && _).
  - match goal with |- context [ra_sched.ul_sched_loop ?t ?q ?db ?mg] =>
      pose proof (ul_sched_loop_users t q db mg) as Hu;
      destruct (ra_sched.ul_sched_loop t q db mg) as [[db' mg'] ev] end.
    match goal with |- context [ul_metric_sched_users ?t ?db ?mg] =>
      destruct (ul_metric_sched_users t db mg) as [db'' mg''] end.
    simpl in *. repeat split; try done.
    unfold users_calls in *. simpl. rewrite !List.filter_app, Hu. simpl.
    by destruct (_ && _).
Qed.

Lemma alloc_dl_users_frame cfg cs sf :
  let r := carrier_sched.alloc_dl_users cfg cs sf in
  slot_core (snd (fst r)) = slot_core sf
  /\ carrier_sched.sf_scheds (fst (fst r)) = carrier_sched.sf_scheds cs
  /\ carrier_sched.sf_dl_mask (fst (fst r)) = carrier_sched.sf_dl_mask cs
  /\ users_calls (snd r) = [Call_alloc_dl_users].
Proof.
  unfold carrier_sched.alloc_dl_users. destruct (negb _); [done|].
  by destruct (dl_metric_sched_users _ _ _) as [db g2].
Qed.

Lemma sched_msg3_grants_frame cfg grants sf :
  slot_core (fst (ra_sched.sched_msg3_grants cfg grants sf)) = slot_core sf
  /\ users_calls (snd (ra_sched.sched_msg3_grants cfg grants sf)) = [].
Proof.
  revert sf. induction grants as [|grant grants IH]; intros sf; simpl; [done|].
  destruct (srslte_ra_type2_from_riv _ _ _) as [L n_prb].
  unfold alloc_msg3. destruct (alloc_msg3_ok _ _ _).
  - match goal with |- context [ra_sched.sched_msg3_grants cfg grants ?s] =>
      destruct (IH s) as [Hc He];
      destruct (ra_sched.sched_msg3_grants cfg grants s) as [sf2 ev] end.
    simpl in *. by rewrite Hc.
  - destruct (IH sf) as [Hc He].
    destruct (ra_sched.sched_msg3_grants cfg grants sf) as [sf2 ev]. simpl in *. done.
Qed.

Lemma sched_msg3_frame cfg rars sf :
  slot_core (fst (ra_sched.sched_msg3 cfg rars sf)) = slot_core sf
  /\ users_calls (snd (ra_sched.sched_msg3 cfg rars sf)) = [].
Proof.
  revert sf. induction rars as [|grants rars IH]; intros sf; simpl; [done|].
  destruct (sched_msg3_grants_frame cfg grants sf) as [Hc1 He1].
  destruct (ra_sched.sched_msg3_grants cfg grants sf) as [sf1 ev1].
  destruct (IH sf1) as [Hc2 He2].
  destruct (ra_sched.sched_msg3 cfg rars sf1) as [sf2 ev2]. simpl in *.
  by rewrite users_calls_app, He1, He2, Hc2.
Qed.

Lemma enqueue_msg3_frame cfg dl_active tti rars cs :
  let r := carrier_sched.enqueue_msg3 cfg dl_active tti rars cs in
  length (carrier_sched.sf_scheds (fst r)) = length (carrier_sched.sf_scheds cs)
  /\ (forall k sf, carrier_sched.sf_scheds cs !! k = Some sf ->
        exists sf', carrier_sched.sf_scheds (fst r) !! k = Some sf'
                    /\ slot_core sf' = slot_core sf)
  /\ users_calls (snd r) = [].
Proof.
  unfold carrier_sched.enqueue_msg3. destruct dl_active; [|by eauto].
  destruct (carrier_sched.sf_scheds cs !! _) as [sfm|] eqn:Hm; [|by eauto].
  destruct (sched_msg3_frame cfg rars sfm) as [Hc He].
  destruct (ra_sched.sched_msg3 cfg rars sfm) as [sf' ev]. simpl in *.
  split; [by rewrite length_insert|]. split; [|done].
  intros k sf Hk.
  destruct (decide (k = carrier_sched.get_sf_sched_idx cs (u32 (tti + MSG3_DELAY_MS))))
    as [->|Hne].
  - exists sf'. rewrite list_lookup_insert_eq by (by eapply lookup_lt_Some).
    split; [done|]. rewrite Hm in Hk. by injection Hk as <-.
  - exists sf. by rewrite list_lookup_insert_ne.
Qed.

(** ** The first invocation of [generate_tti_result] for a TTI *)

Lemma tti_parity (tti : Z) :
  ((tti mod 2 =? 0) = true /\ (tti mod 2 =? 1) = false)
  \/ ((tti mod 2 =? 0) = false /\ (tti mod 2 =? 1) = true).
Proof.
  pose proof (Z.mod_pos_bound tti 2 ltac:(lia)).
  destruct (Z.eqb_spec (tti mod 2) 0), (Z.eqb_spec (tti mod 2) 1); auto; lia.
Qed.

(** The PDCCH round-robin: [alloc_ul_users] before [alloc_dl_users] on an
    even [tti_rx], after it on an odd one. *)
Lemma round_robin_steps cfg tti cs2 sf2 cs3 sf3 ev3 cs4 sf4 ev4 cs5 sf5 ev5 :
  (cs3, sf3, ev3) = (if tti mod 2 =? 0
                     then let '(_, c, s, e) := carrier_sched.alloc_ul_users cfg cs2 sf2 in
                          (c, s, e)
                     else (cs2, sf2, [])) ->
  (cs4, sf4, ev4) = carrier_sched.alloc_dl_users cfg cs3 sf3 ->
  (cs5, sf5, ev5) = (if tti mod 2 =? 1
                     then let '(_, c, s, e) := carrier_sched.alloc_ul_users cfg cs4 sf4 in
                          (c, s, e)
                     else (cs4, sf4, [])) ->
  slot_core sf5 = slot_core sf2
  /\ carrier_sched.sf_scheds cs5 = carrier_sched.sf_scheds cs2
  /\ users_calls (ev3 ++ ev4 ++ ev5)
     = (if tti mod 2 =? 0 then [Call_alloc_ul_users; Call_alloc_dl_users]
        else [Call_alloc_dl_users; Call_alloc_ul_users]).
Proof.
  intros H3 H4 H5.
  pose proof (alloc_dl_users_frame cfg cs3 sf3) as (Hd1 & Hd2 & _ & Hd4).
  rewrite <- H4 in Hd1, Hd2, Hd4. cbn [fst snd] in *.
  destruct (tti_parity tti) as [[E0 E1]|[E0 E1]]; rewrite E0 in *; rewrite E1 in H5.
  - pose proof (alloc_ul_users_frame cfg cs2 sf2) as (Hu1 & Hu2 & _ & Hu4).
    destruct (carrier_sched.alloc_ul_users cfg cs2 sf2) as [[[ret c] s] e].
    cbn [fst snd] in *. injection H3 as -> -> ->. injection H5 as -> -> ->.
    rewrite !users_calls_app, Hu4, Hd4, Hd1, Hu1, Hd2, Hu2. done.
  - pose proof (alloc_ul_users_frame cfg cs4 sf4) as (Hu1 & Hu2 & _ & Hu4).
    destruct (carrier_sched.alloc_ul_users cfg cs4 sf4) as [[[ret c] s] e].
    cbn [fst snd] in *. injection H3 as -> -> ->. injection H5 as -> -> ->.
    rewrite !users_calls_app, Hu4, Hd4, Hu1, Hd1, Hu2, Hd2. done.
Qed.

Lemma generate_tti_result_first fuel cfg cs tti tti_sched i' cs' evs :
  carrier_sched.sf_scheds cs !! carrier_sched.get_sf_sched_idx cs tti = Some tti_sched ->
  tti <> get_tti_rx tti_sched ->
  carrier_sched.generate_tti_result fuel cfg cs tti = Some (i', cs', evs) ->
  let sfp := carrier_sched.generate_phich cfg (carrier_sched.ue_db cs)
               (new_tti tti (nof_ctrl_symbols cfg) tti_sched) in
  i' = carrier_sched.get_sf_sched_idx cs tti
  /\ length (carrier_sched.sf_scheds cs') = length (carrier_sched.sf_scheds cs)
  /\ (exists sf', carrier_sched.sf_scheds cs' !! i' = Some sf'
                  /\ slot_core sf' = slot_core (fst sfp))
  /\ users_calls evs
     = (if tti mod 2 =? 0 then [Call_alloc_ul_users; Call_alloc_dl_users]
        else [Call_alloc_dl_users; Call_alloc_ul_users])
  /\ exists rest, evs = snd sfp ++ rest.
Proof.
  intros Hlook Hne. unfold carrier_sched.generate_tti_result. rewrite Hlook.
  destruct (Z.eqb_spec tti (get_tti_rx tti_sched)); [done|]. cbn [negb].
  pose proof (generate_phich_core cfg (carrier_sched.ue_db cs)
                (new_tti tti (nof_ctrl_symbols cfg) tti_sched)) as [_ Hev1].
  destruct (carrier_sched.generate_phich _ _ _) as [sf1 ev1]. cbn [fst snd] in *.
  destruct (carrier_sched.dl_ctrl _ _ _ _ _) as [[[cs2 sf2] ev2]|] eqn:Hctrl; [|done].
  apply dl_ctrl_frame in Hctrl as (Hc2 & Hs2 & Hev2).
  destruct (if tti mod 2 =? 0 then _ else _) as [[cs3 sf3] ev3] eqn:H3.
  destruct (carrier_sched.alloc_dl_users cfg cs3 sf3) as [[cs4 sf4] ev4] eqn:H4.
  destruct (if tti mod 2 =? 1 then _ else _) as [[cs5 sf5] ev5] eqn:H5.
  destruct (round_robin_steps cfg tti cs2 sf2 cs3 sf3 ev3 cs4 sf4 ev4 cs5 sf5 ev5
              (eq_sym H3) (eq_sym H4) (eq_sym H5)) as (Hc5 & Hs5 & Hev5).
  destruct (generate_dcis _ _ _) as [db6 g6].
  match goal with |- context [carrier_sched.enqueue_msg3 ?c ?a ?t ?r ?s] =>
    pose proof (enqueue_msg3_frame c a t r s) as (Hl7 & Hk7 & Hev7);
    destruct (carrier_sched.enqueue_msg3 c a t r s) as [cs7 ev7] end.
  cbn [fst snd] in *.
  intros [= <- <- <-]. cbn [carrier_sched.sf_scheds carrier_sched.set_ue_db
                            carrier_sched.set_sf_sched] in *.
  assert (Hi : (carrier_sched.get_sf_sched_idx cs tti < length (carrier_sched.sf_scheds cs5))%nat).
  { rewrite Hs5, Hs2. by eapply lookup_lt_Some. }
  split; [done|]. split; [by rewrite Hl7, length_insert, Hs5, Hs2|]. split; [|split].
  - destruct (Hk7 (carrier_sched.get_sf_sched_idx cs tti) (set_grid sf5 g6)) as (sf' & Hsf' & Hc').
    { by apply list_lookup_insert_eq. }
    exists sf'. split; [done|]. rewrite Hc'.
    change (slot_core (set_grid sf5 g6)) with (slot_core sf5). by rewrite Hc5, Hc2.
  - unfold users_calls in *. rewrite !List.filter_app in *. rewrite Hev1, Hev2.
    cbn [List.filter is_users_call app]. by rewrite Hev7, app_nil_r.
  - by eexists.
Qed.

(** The only way for a first invocation not to return is the RAR loop of
    [ra_sched::dl_sched] not leaving its [while]. *)
Lemma generate_tti_result_none fuel cfg cs tti tti_sched :
  carrier_sched.sf_scheds cs !! carrier_sched.get_sf_sched_idx cs tti = Some tti_sched ->
  carrier_sched.generate_tti_result fuel cfg cs tti = None ->
  carrier_sched.dl_ctrl fuel cfg
    (carrier_sched.dl_mask_at (carrier_sched.sf_dl_mask cs) (get_tti_tx_dl tti_sched) =? 0) cs
    (fst (carrier_sched.generate_phich cfg (carrier_sched.ue_db cs)
            (new_tti tti (nof_ctrl_symbols cfg) tti_sched)))
  = None.
Proof.
  intros Hlook. unfold carrier_sched.generate_tti_result. rewrite Hlook.
  destruct (negb _); [|done].
  destruct (carrier_sched.generate_phich _ _ _) as [sf1 ev1]. cbn [fst].
  destruct (carrier_sched.dl_ctrl _ _ _ _ _) as [[[cs2 sf2] ev2]|]; [|done].
  destruct (if tti mod 2 =? 0 then _ else _) as [[cs3 sf3] ev3].
  destruct (carrier_sched.alloc_dl_users cfg cs3 sf3) as [[cs4 sf4] ev4].
  destruct (if tti mod 2 =? 1 then _ else _) as [[cs5 sf5] ev5].
  destruct (generate_dcis _ _ _) as [db6 g6].
  by destruct (carrier_sched.enqueue_msg3 _ _ _ _ _) as [cs7 ev7].
Qed.

(** C7: when [generate_tti_result(tti_rx)] has returned, calling it again
    with the same [tti_rx] returns the same slot of the ring, leaves the
    whole scheduler (slots, pending RARs, SIB state, UE database) as it is,
    and does nothing else: it makes no call and writes no message, and it
    does not even enter the RAR loop, so it returns whatever [fuel] is. *)
Theorem generate_tti_result_idempotent fuel cfg cs tti i cs' evs :
  carrier_sched.generate_tti_result fuel cfg cs tti = Some (i, cs', evs) ->
  forall fuel', carrier_sched.generate_tti_result fuel' cfg cs' tti = Some (i, cs', []).
Proof.
  intros Hfirst fuel'.
  destruct (carrier_sched.sf_scheds cs !! carrier_sched.get_sf_sched_idx cs tti)
    as [tti_sched|] eqn:Hlook;
    [|by unfold carrier_sched.generate_tti_result in Hfirst; rewrite Hlook in Hfirst].
  destruct (Z.eq_dec tti (get_tti_rx tti_sched)) as [Heq|Hne].
  - unfold carrier_sched.generate_tti_result in Hfirst |- *. rewrite Hlook in Hfirst.
    destruct (Z.eqb_spec tti (get_tti_rx tti_sched)); [|done]. simpl in Hfirst.
    injection Hfirst as <- <- <-. rewrite Hlook.
    by destruct (Z.eqb_spec tti (get_tti_rx tti_sched)).
  - destruct (generate_tti_result_first fuel cfg cs tti tti_sched i cs' evs Hlook Hne Hfirst)
      as (-> & Hlen & (sf' & Hsf' & Hcore) & _).
    destruct (generate_phich_core cfg (carrier_sched.ue_db cs)
                (new_tti tti (nof_ctrl_symbols cfg) tti_sched)) as [Htti _].
    assert (Hrx : tti_rx sf' = tti).
    { unfold slot_core in Hcore. injection Hcore as -> _ _. by rewrite Htti. }
    unfold carrier_sched.generate_tti_result, carrier_sched.get_sf_sched_idx in *.
    rewrite Hlen, Hsf'. unfold get_tti_rx. rewrite Hrx.
    by rewrite Z.eqb_refl.
Qed.

(** C8: a first invocation of [generate_tti_result(tti_rx)] that returns
    has invoked [alloc_ul_users] and [alloc_dl_users] once each, the first
    before the second when [tti_rx] is even and after it when [tti_rx] is odd;
    a first invocation that does not return is one whose RAR loop has not
    left its [while]. *)
Theorem pdcch_round_robin fuel cfg cs tti tti_sched :
  carrier_sched.sf_scheds cs !! carrier_sched.get_sf_sched_idx cs tti = Some tti_sched ->
  tti <> get_tti_rx tti_sched ->
  match carrier_sched.generate_tti_result fuel cfg cs tti with
  | Some (_, _, evs) =>
      users_calls evs
      = if tti mod 2 =? 0 then [Call_alloc_ul_users; Call_alloc_dl_users]
        else [Call_alloc_dl_users; Call_alloc_ul_users]
  | None =>
      carrier_sched.dl_ctrl fuel cfg
        (carrier_sched.dl_mask_at (carrier_sched.sf_dl_mask cs) (get_tti_tx_dl tti_sched) =? 0)
        cs (fst (carrier_sched.generate_phich cfg (carrier_sched.ue_db cs)
                   (new_tti tti (nof_ctrl_symbols cfg) tti_sched)))
      = None
  end.
Proof.
  intros Hlook Hne.
  destruct (carrier_sched.generate_tti_result fuel cfg cs tti) as [[[i cs'] evs]|] eqn:Hr.
  - by destruct (generate_tti_result_first fuel cfg cs tti tti_sched i cs' evs Hlook Hne Hr)
      as (_ & _ & _ & Hcalls & _).
  - by apply generate_tti_result_none.
Qed.

Lemma filter_length_bound {A : Type} (f : A -> bool) (l : list A) :
  (length (List.filter f l) <= length l)%nat.
Proof. induction l as [|x l IH]; simpl; [lia|]. destruct (f x); simpl; lia. Qed.

(** C9: in a first invocation of [generate_tti_result(tti_rx)], whatever
    [sf_dl_mask] says about the TTI, the slot that is returned holds one PHICH
    element for each UE of the database that is active on the carrier and
    whose UL HARQ process of [tti_rx] has a pending ack, in the order of the
    database, with the value ACK or NACK of that ack and the RNTI of the UE
    (as far as the [phich] array reaches), and none for any other UE;
    [nof_phich_elems] is the number of those UEs, so at most the number of
    entries of the database.  With DL blacked out the invocation always
    returns; otherwise it returns unless the RAR loop does not leave its
    [while]. *)
Theorem phich_first_invocation fuel cfg cs tti tti_sched :
  carrier_sched.sf_scheds cs !! carrier_sched.get_sf_sched_idx cs tti = Some tti_sched ->
  tti <> get_tti_rx tti_sched ->
  Z.of_nat (length (carrier_sched.ue_db cs)) < 2 ^ 32 ->
  let due := List.filter (phich_due cfg tti) (carrier_sched.ue_db cs) in
  let dl_active :=
    carrier_sched.dl_mask_at (carrier_sched.sf_dl_mask cs) (get_tti_tx_dl tti_sched) =? 0 in
  match carrier_sched.generate_tti_result fuel cfg cs tti with
  | Some (i, cs', evs) =>
      exists sf',
        carrier_sched.sf_scheds cs' !! i = Some sf'
        /\ nof_phich_elems sf' = Z.of_nat (length due)
        /\ nof_phich_elems sf' <= Z.of_nat (length (carrier_sched.ue_db cs))
        /\ (forall k user, due !! k = Some user -> (k < MAX_PHICH_LIST)%nat ->
              ul_phich sf' !! k = Some (phich_of cfg tti user))
        /\ exists rest,
             evs = ((fun user => Debug_phich (fst user) (phich (phich_of cfg tti user)))
                      <$> due) ++ rest
  | None => dl_active = true
  end.
Proof.
  intros Hlook Hne Hsize due dl_active.
  pose proof (generate_phich_loop_spec cfg tti (carrier_sched.ue_db cs) 0
                (replicate MAX_PHICH_LIST phich_zero) ltac:(lia) ltac:(lia))
    as (Hn & Hl & _ & Hk & Hev).
  destruct (carrier_sched.generate_tti_result fuel cfg cs tti) as [[[i cs'] evs]|] eqn:Hr.
  - destruct (generate_tti_result_first fuel cfg cs tti tti_sched i cs' evs Hlook Hne Hr)
      as (_ & _ & (sf' & Hsf' & Hcore) & _ & (rest & Hevs)).
    unfold carrier_sched.generate_phich in Hcore, Hevs. cbn in Hcore, Hevs.
    destruct (carrier_sched.generate_phich_loop _ _ _ _ _) as [[nof arr] ev].
    cbn [fst snd] in *. unfold slot_core in Hcore. cbn in Hcore.
    injection Hcore as _ Harr Hnof.
    exists sf'. split; [done|]. rewrite Hnof, Harr, Hn. fold due.
    pose proof (filter_length_bound (phich_due cfg tti) (carrier_sched.ue_db cs)) as Hle.
    split; [lia|]. split; [subst due; lia|].
    split.
    + intros k user Hu Hb. apply (Hk k user Hu). rewrite length_replicate. simpl. lia.
    + exists rest. by rewrite Hevs, Hev.
  - apply (generate_tti_result_none _ _ _ _ _ Hlook) in Hr.
    unfold carrier_sched.dl_ctrl in Hr. fold dl_active in Hr. by destruct dl_active.
Qed.
End CarrierProps.

(** ** The carrier scheduler on concrete inputs *)

Lemma alloc_ul_users_reserves_witness :
  mask_subset (@carrier_sched.cfg_pucch_mask example_cfg)
    (ul_mask (snd (fst (carrier_sched.alloc_ul_users (H := mock two_grants_per_call)
                          example_cfg (example_carrier 0)
                          (example_slot two_grants_per_call 100))))).
Proof.
  exact (proj1 (proj2 (alloc_ul_users_reserves (H := mock two_grants_per_call)
                         example_cfg (example_carrier 0)
                         (example_slot two_grants_per_call 100)
                         (fun _ _ _ _ _ mg0 => mask_subset_lor_l (fst mg0) _)
                         (fun _ _ mg0 => mask_subset_refl (fst mg0))))).
Defined.

(** The scenario of the spec: 25 PRBs and [nrb_pucch = 2].  After
    [alloc_ul_users] on a TTI without PRACH the uplink mask holds the PRBs
    0, 1, 23 and 24; on a PRACH TTI also the PRBs 2 to 7. *)
Example pucch_reservation_25_2 :
  ul_mask (snd (fst (carrier_sched.alloc_ul_users (H := mock two_grants_per_call)
                       example_cfg (example_carrier 0)
                       (example_slot two_grants_per_call 100))))
  = 2 ^ 0 + 2 ^ 1 + 2 ^ 23 + 2 ^ 24
  /\ ul_mask (snd (fst (carrier_sched.alloc_ul_users (H := mock two_grants_per_call)
                          example_cfg (example_carrier 0)
                          (example_slot two_grants_per_call 97))))
     = 2 ^ 0 + 2 ^ 1 + (2 ^ 2 + 2 ^ 3 + 2 ^ 4 + 2 ^ 5 + 2 ^ 6 + 2 ^ 7) + 2 ^ 23 + 2 ^ 24.
Proof. split; vm_compute; reflexivity. Qed.

Lemma generate_tti_result_idempotent_witness :
  exists i cs' evs,
    carrier_sched.generate_tti_result (H := mock two_grants_per_call) 10
      example_cfg (example_carrier 0) 100 = Some (i, cs', evs)
    /\ carrier_sched.generate_tti_result (H := mock two_grants_per_call) 0
         example_cfg cs' 100 = Some (i, cs', []).
Proof.
  destruct (carrier_sched.generate_tti_result (H := mock two_grants_per_call) 10
              example_cfg (example_carrier 0) 100) as [[[i cs'] evs]|] eqn:E.
  - exists i, cs', evs. split; [reflexivity|].
    exact (generate_tti_result_idempotent (H := mock two_grants_per_call) 10
             example_cfg (example_carrier 0) 100 i cs' evs E 0%nat).
  - assert (Hs : match carrier_sched.generate_tti_result (H := mock two_grants_per_call) 10
                       example_cfg (example_carrier 0) 100 with
                 | Some _ => true | None => false end = true)
      by (vm_compute; reflexivity).
    rewrite E in Hs. discriminate Hs.
Defined.

Lemma pdcch_round_robin_witness :
  match carrier_sched.generate_tti_result (H := mock two_grants_per_call) 10
          example_cfg (example_carrier 0) 101 with
  | Some (_, _, evs) => users_calls evs = [Call_alloc_dl_users; Call_alloc_ul_users]
  | None => False
  end.
Proof.
  pose proof (pdcch_round_robin (H := mock two_grants_per_call) 10 example_cfg
                (example_carrier 0) 101 (example_slot two_grants_per_call 20000)
                eq_refl ltac:(simpl; lia)) as Hthm.
  destruct (carrier_sched.generate_tti_result (H := mock two_grants_per_call) 10
              example_cfg (example_carrier 0) 101) as [[[i cs'] evs]|] eqn:E.
  - exact Hthm.
  - assert (Hs : match carrier_sched.generate_tti_result (H := mock two_grants_per_call) 10
                       example_cfg (example_carrier 0) 101 with
                 | Some _ => true | None => false end = true)
      by (vm_compute; reflexivity).
    rewrite E in Hs. discriminate Hs.
Defined.

(** With DL blacked out for the TTI the two PHICH elements are still
    there. *)
Lemma phich_first_invocation_witness :
  match carrier_sched.generate_tti_result (H := mock two_grants_per_call) 10
          example_cfg (example_carrier 1) 100 with
  | Some (i, cs', evs) =>
      exists sf',
        carrier_sched.sf_scheds cs' !! i = Some sf'
        /\ nof_phich_elems sf' = 2
        /\ ul_phich sf' !! 0%nat = Some (mk_phich ACK 70)
        /\ ul_phich sf' !! 1%nat = Some (mk_phich NACK 71)
  | None => False
  end.
Proof.
  pose proof (phich_first_invocation (H := mock two_grants_per_call) 10 example_cfg
                (example_carrier 1) 100 (example_slot two_grants_per_call 20000)
                eq_refl ltac:(simpl; lia) ltac:(simpl; lia)) as Hthm.
  cbv zeta in Hthm.
  destruct (carrier_sched.generate_tti_result (H := mock two_grants_per_call) 10
              example_cfg (example_carrier 1) 100) as [[[i cs'] evs]|] eqn:E.
  - destruct Hthm as (sf' & Hsf & Hn & _ & Hk & _).
    exists sf'. split; [exact Hsf|]. split; [exact Hn|].
    split; [exact (Hk 0%nat (70, mk_mock_ue true true true) eq_refl ltac:(simpl; lia))|].
    exact (Hk 1%nat (71, mk_mock_ue true true false) eq_refl ltac:(simpl; lia)).
  - discriminate Hthm.
Defined.

(** ** Further runs of the random-access scheduler *)

(** The scenario of the spec: two detections of the same PRACH occasion
    ([prach_tti = 200], so [ra_rnti = 1]) with distinct preambles end in one
    pending RAR that holds both. *)
Example rar_coalescing :
  let r1 := ra_sched.dl_rach_info (H := mock two_grants_per_call) (ra_sched.mk [] 2)
                                  (example_info 200 3) in
  let r2 := ra_sched.dl_rach_info (H := mock two_grants_per_call) (snd (fst r1))
                                  (example_info 200 7) in
  fst (fst r1) = SRSLTE_SUCCESS /\ fst (fst r2) = SRSLTE_SUCCESS
  /\ (fun r => (ra_rnti r, prach_tti r, nof_grants r, take 2 (msg3_grant r)))
       <$> ra_sched.pending_rars (snd (fst r2))
     = [(1, 200, 2, [example_info 200 3; example_info 200 7])].
Proof. vm_compute. repeat split; reflexivity. Qed.

Lemma dl_rach_info_appends_witness :
  exists r',
    ra_sched.dl_rach_info (H := mock two_grants_per_call)
      (ra_sched.mk [example_rar 200 1] 2) (example_info 200 7)
    = (SRSLTE_SUCCESS, ra_sched.mk [r'] 2, [Info_new_prach (example_info 200 7)])
    /\ msg3_grant r' !! 1%nat = Some (example_info 200 7)
    /\ nof_grants r' = 2.
Proof.
  destruct (dl_rach_info_appends (H := mock two_grants_per_call)
              (ra_sched.mk [example_rar 200 1] 2) (example_info 200 7)
              [] (example_rar 200 1) [] eq_refl ltac:(constructor) eq_refl
              ltac:(simpl; lia))
    as (r' & Hcall & Hstore & _ & Hn & _).
  exists r'. split; [exact Hcall|]. split; [exact Hstore|exact Hn].
Defined.


Lemma dl_sched_terminates_witness :
  is_Some (ra_sched.dl_sched (H := mock grants_or_collision) 7 example_cfg
             (ra_sched.mk [example_rar 100 3; example_rar 101 1] 2)
             (example_slot grants_or_collision 100)).
Proof.
  refine (dl_sched_terminates (H := mock grants_or_collision) example_cfg
            (ra_sched.mk [example_rar 100 3; example_rar 101 1] 2)
            (example_slot grants_or_collision 100) _).
  intros r g0. simpl. unfold grants_or_collision.
  destruct (Z.ltb_spec 0 (nof_grants r)); [lia|exact I].
Defined.

(** * Further properties of the random-access scheduler *)
Section RaMore.
Context `{Collaborators}.

Lemma dl_rach_rnti_of_tti rar_info :
  ra_sched.dl_rach_rnti rar_info = rnti_of_tti (info_prach_tti rar_info).
Proof. reflexivity. Qed.

Lemma dl_rach_info_find_keys rnti rar_info q q' :
  ra_sched.dl_rach_info_find rnti rar_info q = Some q' ->
  (fun r => (prach_tti r, ra_rnti r)) <$> q' = (fun r => (prach_tti r, ra_rnti r)) <$> q.
Proof.
  revert q'. induction q as [|r q IH]; intros q'; simpl; [done|].
  destruct (ra_sched.same_rar _ _ r).
  - by intros [= <-].
  - destruct (ra_sched.dl_rach_info_find _ _ q) as [q1|]; [|done].
    intros [= <-]. rewrite !fmap_cons. f_equal. by apply IH.
Qed.

Lemma dl_rach_info_find_none_inv rnti rar_info q :
  ra_sched.dl_rach_info_find rnti rar_info q = None ->
  Forall (fun r => ra_sched.same_rar rnti rar_info r = false) q.
Proof.
  induction q as [|r q IH]; simpl; [by constructor|].
  destruct (ra_sched.same_rar _ _ r) eqn:Hr; [done|].
  destruct (ra_sched.dl_rach_info_find _ _ q); [done|]. intros _. constructor; auto.
Qed.

Lemma dl_rach_info_find_keeps_match rnti rar_info q q' :
  ra_sched.dl_rach_info_find rnti rar_info q = Some q' ->
  Exists (fun r => prach_tti r = info_prach_tti rar_info /\ ra_rnti r = rnti) q'.
Proof.
  revert q'. induction q as [|r q IH]; intros q'; simpl; [done|].
  destruct (ra_sched.same_rar _ _ r) eqn:Hr.
  - intros [= <-]. apply Exists_cons_hd. simpl.
    unfold ra_sched.same_rar in Hr. apply andb_true_iff in Hr as [H1 H2].
    apply Z.eqb_eq in H1, H2. done.
  - destruct (ra_sched.dl_rach_info_find _ _ q) as [q1|]; [|done].
    intros [= <-]. apply Exists_cons_tl. by apply IH.
Qed.

(** [dl_rach_info] never fails, writes one line to the log, and never
    removes or reorders a pending RAR: the PRACH TTIs of the queue stay as
    they are, with at most the PRACH TTI of the new preamble added at the
    tail. *)
Theorem dl_rach_info_effect rs rar_info :
  fst (fst (ra_sched.dl_rach_info rs rar_info)) = SRSLTE_SUCCESS
  /\ snd (ra_sched.dl_rach_info rs rar_info) = [Info_new_prach rar_info]
  /\ ra_sched.rar_aggr_level (snd (fst (ra_sched.dl_rach_info rs rar_info)))
     = ra_sched.rar_aggr_level rs
  /\ exists tail,
       prach_tti <$> ra_sched.pending_rars (snd (fst (ra_sched.dl_rach_info rs rar_info)))
       = (prach_tti <$> ra_sched.pending_rars rs) ++ tail
       /\ (tail = [] \/ tail = [info_prach_tti rar_info]).
Proof.
  unfold ra_sched.dl_rach_info.
  destruct (ra_sched.dl_rach_info_find _ _ _) as [q'|] eqn:Hf; simpl.
  - repeat split; try done. exists []. rewrite app_nil_r.
    split; [by eapply dl_rach_info_find_tti|by left].
  - repeat split; try done. exists [info_prach_tti rar_info].
    split; [by rewrite fmap_app|by right].
Qed.

(** Two preambles of the same PRACH occasion: whatever the queue, the
    second call of [dl_rach_info] finds the RAR that the first call filled
    or created, and enqueues nothing. *)
Theorem dl_rach_info_same_occasion rs rar_info1 rar_info2 :
  info_prach_tti rar_info1 = info_prach_tti rar_info2 ->
  let rs1 := snd (fst (ra_sched.dl_rach_info rs rar_info1)) in
  let rs2 := snd (fst (ra_sched.dl_rach_info rs1 rar_info2)) in
  prach_tti <$> ra_sched.pending_rars rs2 = prach_tti <$> ra_sched.pending_rars rs1
  /\ Exists (fun r => prach_tti r = info_prach_tti rar_info1
                      /\ ra_rnti r = ra_sched.dl_rach_rnti rar_info1)
            (ra_sched.pending_rars rs2).
Proof.
  intros Htti rs1 rs2.
  assert (Hrnti : ra_sched.dl_rach_rnti rar_info2 = ra_sched.dl_rach_rnti rar_info1).
  { by rewrite !dl_rach_rnti_of_tti, Htti. }
  assert (H1 : Exists (fun r => prach_tti r = info_prach_tti rar_info1
                                /\ ra_rnti r = ra_sched.dl_rach_rnti rar_info1)
                      (ra_sched.pending_rars rs1)).
  { subst rs1. unfold ra_sched.dl_rach_info.
    destruct (ra_sched.dl_rach_info_find _ _ _) as [q'|] eqn:Hf; simpl.
    - by eapply dl_rach_info_find_keeps_match.
    - apply Exists_app. right. by apply Exists_cons_hd. }
  assert (H2 : is_Some (ra_sched.dl_rach_info_find (ra_sched.dl_rach_rnti rar_info2) rar_info2
                          (ra_sched.pending_rars rs1))).
  { apply dl_rach_info_find_some. eapply Exists_impl; [exact H1|].
    intros r [Ht Hr]. unfold ra_sched.same_rar.
    rewrite Hrnti, Ht, Htti, Hr, !Z.eqb_refl. done. }
  destruct H2 as [q2 Hq2]. subst rs2. clearbody rs1.
  unfold ra_sched.dl_rach_info. rewrite Hq2. simpl.
  split; [by eapply dl_rach_info_find_tti|].
  pose proof (dl_rach_info_find_keeps_match _ _ _ _ Hq2) as Hm.
  eapply Exists_impl; [exact Hm|]. intros r [Ht Hr]. by rewrite Ht, Hr, Htti, Hrnti.
Qed.

(** The key of the queue: when no two pending RARs have the same PRACH TTI
    and each carries the RA-RNTI of its PRACH TTI, this is still so after
    [dl_rach_info] and after any number of iterations of the loop of
    [dl_sched].  All preambles of one PRACH occasion are therefore held by
    one RAR. *)
Theorem rars_keyed_kept cfg rs :
  rars_keyed (ra_sched.pending_rars rs) ->
  (forall rar_info,
     rars_keyed (ra_sched.pending_rars (snd (fst (ra_sched.dl_rach_info rs rar_info)))))
  /\ (forall sf n,
        rars_keyed (snd (fst (fst
          (ra_sched.loop_iter cfg (tti_rx sf) (get_tti_tx_dl sf) 2 n
             (ra_sched.Next, ra_sched.pending_rars rs, sf_grid sf, [])))))).
Proof.
  intros [Hnd Hrnti]. split.
  - intros rar_info. unfold ra_sched.dl_rach_info.
    destruct (ra_sched.dl_rach_info_find _ _ _) as [q'|] eqn:Hf; simpl.
    + pose proof (dl_rach_info_find_keys _ _ _ _ Hf) as Hk. split.
      * by rewrite (dl_rach_info_find_tti _ _ _ _ Hf).
      * apply (Forall_fmap (fun r => (prach_tti r, ra_rnti r))
                           (fun k => snd k = rnti_of_tti (fst k))).
        rewrite Hk. by apply Forall_fmap.
    + apply dl_rach_info_find_none_inv in Hf. split.
      * rewrite fmap_app. apply NoDup_app. split; [done|]. split; [|apply NoDup_singleton].
        intros tti Hin Hnew. apply list_elem_of_singleton in Hnew. subst tti.
        apply list_elem_of_fmap in Hin as (r & Ht & Hr).
        rewrite Forall_forall in Hf, Hrnti. specialize (Hf r Hr). specialize (Hrnti r Hr).
        unfold ra_sched.same_rar in Hf. simpl in Ht, Hrnti.
        rewrite dl_rach_rnti_of_tti, Hrnti, <- Ht, !Z.eqb_refl in Hf. done.
      * apply Forall_app. split; [done|]. by repeat constructor.
  - intros sf n.
    apply (loop_iter_invariant _ _ _ _ (fun st => rars_keyed (snd (fst (fst st)))));
      [done|].
    intros [[[[] [|rar rest]] g] evs]; simpl; try done.
    destruct (ra_sched.dl_sched_body _ _ _ _ _ _ _) as [[[c q] g'] ev] eqn:Hb. simpl.
    intros [Hn Hr]. rewrite fmap_cons in Hn. apply NoDup_cons in Hn as [Hnotin Hn].
    apply Forall_cons in Hr as [Hr0 Hr].
    apply dl_sched_body_queue in Hb as [->|[->|(k & grants & ->)]].
    + done.
    + split; [rewrite fmap_cons; by apply NoDup_cons|by constructor].
    + split; [rewrite fmap_cons; by apply NoDup_cons|by constructor].
Qed.

Lemma loop_iter_add cfg tti_rx tti aggr n m st :
  ra_sched.loop_iter cfg tti_rx tti aggr (n + m) st
  = ra_sched.loop_iter cfg tti_rx tti aggr m (ra_sched.loop_iter cfg tti_rx tti aggr n st).
Proof. revert st. induction n as [|n IH]; intros st; simpl; [done|]. apply IH. Qed.

(** [dl_sched] only removes RARs from the front: after any number of
    iterations the PRACH TTIs of the queue are a suffix of those it started
    with.  It adds no RAR and changes no order. *)
Theorem dl_sched_keeps_order cfg rs sf :
  (forall n,
     (prach_tti <$> snd (fst (fst
        (ra_sched.loop_iter cfg (tti_rx sf) (get_tti_tx_dl sf) 2 n
           (ra_sched.Next, ra_sched.pending_rars rs, sf_grid sf, [])))))
     `suffix_of` (prach_tti <$> ra_sched.pending_rars rs))
  /\ (forall fuel rs' sf' evs,
        ra_sched.dl_sched fuel cfg rs sf = Some (rs', sf', evs) ->
        (prach_tti <$> ra_sched.pending_rars rs')
        `suffix_of` (prach_tti <$> ra_sched.pending_rars rs)
        /\ ra_sched.rar_aggr_level rs' = 2
        /\ slot_core sf' = slot_core sf).
Proof.
  assert (Hloop : forall n,
     (prach_tti <$> snd (fst (fst
        (ra_sched.loop_iter cfg (tti_rx sf) (get_tti_tx_dl sf) 2 n
           (ra_sched.Next, ra_sched.pending_rars rs, sf_grid sf, [])))))
     `suffix_of` (prach_tti <$> ra_sched.pending_rars rs)).
  { apply (loop_iter_invariant _ _ _ _
      (fun st => (prach_tti <$> snd (fst (fst st)))
                 `suffix_of` (prach_tti <$> ra_sched.pending_rars rs))); [done|].
    intros [[[[] [|rar rest]] g] evs]; simpl; try done.
    destruct (ra_sched.dl_sched_body _ _ _ _ _ _ _) as [[[c q] g'] ev] eqn:Hb. simpl.
    intros Hs. apply dl_sched_body_queue in Hb as [->|[->|(k & grants & ->)]];
      simpl in *; try done.
    by eapply suffix_cons_l. }
  split; [done|].
  intros fuel rs' sf' evs. unfold ra_sched.dl_sched. specialize (Hloop fuel).
  destruct (ra_sched.loop_iter _ _ _ _ _ _) as [[[c q] g] ev].
  destruct (ra_sched.exited _); [|done]. by intros [= <- <- <-].
Qed.

(** [RB_COLLISION] on the head RAR ends the call: the queue is as it was,
    and no RAR behind the head has been tried. *)
Theorem dl_sched_rb_collision cfg rs sf rar rest granted g' fuel :
  ra_sched.pending_rars rs = rar :: rest ->
  is_in_tti_interval (get_tti_tx_dl sf) (u32 (prach_tti rar + 3))
                     (u32 (prach_tti rar + 3 + prach_rar_window cfg)) = true ->
  alloc_rar (tti_rx sf) 2 rar (sf_grid sf) = ((RB_COLLISION, granted), g') ->
  ra_sched.dl_sched (S fuel) cfg rs sf
  = Some (ra_sched.mk (rar :: rest) 2, set_grid sf g',
          [Call_alloc_rar 2 rar (RB_COLLISION, granted)]).
Proof.
  intros Hq Hwin Hrar. unfold ra_sched.dl_sched. rewrite Hq. simpl.
  unfold ra_sched.dl_sched_body. rewrite Hwin, Hrar. simpl.
  by rewrite loop_iter_exited.
Qed.

Lemma all_granted_iter cfg tti_rx tti aggr (q post : list pending_rar_t) g evs :
  Forall (fun r =>
            is_in_tti_interval tti (u32 (prach_tti r + 3))
                               (u32 (prach_tti r + 3 + prach_rar_window cfg)) = true
            /\ forall g0, fst (alloc_rar tti_rx aggr r g0) = (SUCCESS, nof_grants r)) q ->
  exists g',
    ra_sched.loop_iter cfg tti_rx tti aggr (length q) (ra_sched.Next, q ++ post, g, evs)
    = (ra_sched.Next, post, g',
       evs ++ ((fun r => Call_alloc_rar aggr r (SUCCESS, nof_grants r)) <$> q)).
Proof.
  intros Hq. revert g evs. induction Hq as [|r q [Hwin Hall] _ IH]; intros g evs; simpl.
  - exists g. by rewrite app_nil_r.
  - unfold ra_sched.dl_sched_body. rewrite Hwin. simpl.
    specialize (Hall g). destruct (alloc_rar _ _ _ _) as [ret g1]. simpl in Hall. subst ret.
    simpl. rewrite Z.eqb_refl.
    destruct (IH g1 (evs ++ [Call_alloc_rar aggr r (SUCCESS, nof_grants r)])) as [g' ->].
    exists g'. by rewrite <- app_assoc.
Qed.

(** When every pending RAR is inside its window and the slot has room for
    all the grants of each, one call of [dl_sched] sends them all: one call
    of [alloc_rar] per RAR, in the order of the queue, and an empty queue at
    the end. *)
Theorem dl_sched_all_granted cfg rs sf fuel :
  Forall (fun r =>
            is_in_tti_interval (get_tti_tx_dl sf) (u32 (prach_tti r + 3))
                               (u32 (prach_tti r + 3 + prach_rar_window cfg)) = true
            /\ forall g0, fst (alloc_rar (tti_rx sf) 2 r g0) = (SUCCESS, nof_grants r))
         (ra_sched.pending_rars rs) ->
  (length (ra_sched.pending_rars rs) <= fuel)%nat ->
  exists sf',
    ra_sched.dl_sched fuel cfg rs sf
    = Some (ra_sched.mk [] 2, sf',
            (fun r => Call_alloc_rar 2 r (SUCCESS, nof_grants r)) <$> ra_sched.pending_rars rs)
    /\ slot_core sf' = slot_core sf.
Proof.
  intros Hq Hfuel.
  destruct (all_granted_iter cfg (tti_rx sf) (get_tti_tx_dl sf) 2
              (ra_sched.pending_rars rs) [] (sf_grid sf) [] Hq) as [g' Hiter].
  rewrite app_nil_r in Hiter.
  unfold ra_sched.dl_sched.
  replace fuel with (length (ra_sched.pending_rars rs)
                     + (fuel - length (ra_sched.pending_rars rs)))%nat by lia.
  rewrite loop_iter_add, Hiter, loop_iter_exited by done. simpl.
  by exists (set_grid sf g').
Qed.

(** ** Msg3 *)

Lemma ue_db_set_keys {U : Type} (rnti : Z) (u : U) (db : list (Z * U)) :
  fst <$> ue_db_set rnti u db = fst <$> db.
Proof.
  induction db as [|[k v] db IH]; [done|]. cbn [ue_db_set].
  destruct (k =? rnti); [done|]. by rewrite !fmap_cons, IH.
Qed.

Lemma ue_db_find_set {U : Type} (rnti k : Z) (u : U) (db : list (Z * U)) :
  is_Some (ue_db_find k (ue_db_set rnti u db)) <-> is_Some (ue_db_find k db).
Proof.
  induction db as [|[k' v] db IH]; simpl; [done|].
  destruct (k' =? rnti) eqn:E1; simpl.
  - destruct (k' =? k); [|done]. split; intros _; by eexists.
  - destruct (k' =? k); [|done]. split; intros _; by eexists.
Qed.

Lemma msg3_known_set {U : Type} (rnti : Z) (u : U) (db : list (Z * U)) msg3 :
  msg3_known (ue_db_set rnti u db) msg3 = msg3_known db msg3.
Proof.
  unfold msg3_known.
  pose proof (ue_db_find_set rnti (msg3_rnti msg3) u db) as Hiff.
  destruct (ue_db_find _ (ue_db_set _ _ _)) as [x|], (ue_db_find _ db) as [y|]; try done.
  - destruct Hiff as [Hi _]. destruct Hi as [? [=]]. by eexists.
  - destruct Hiff as [_ Hi]. destruct Hi as [? [=]]. by eexists.
Qed.

Lemma filter_known_set {U : Type} (rnti : Z) (u : U) (db : list (Z * U)) q :
  List.filter (msg3_known (ue_db_set rnti u db)) q = List.filter (msg3_known db) q.
Proof.
  induction q as [|m q IH]; simpl; [done|]. by rewrite msg3_known_set, IH.
Qed.

Lemma filter_unknown_set {U : Type} (rnti : Z) (u : U) (db : list (Z * U)) q :
  List.filter (fun m => negb (msg3_known (ue_db_set rnti u db) m)) q
  = List.filter (fun m => negb (msg3_known db m)) q.
Proof.
  induction q as [|m q IH]; simpl; [done|]. by rewrite msg3_known_set, IH.
Qed.

Lemma ul_sched_loop_spec tti q db mg :
  fst <$> fst (fst (ra_sched.ul_sched_loop tti q db mg)) = fst <$> db
  /\ alloc_ul_calls (snd (ra_sched.ul_sched_loop tti q db mg))
     = (fun m => (msg3_rnti m, msg3_n_prb m, msg3_L m, msg3_mcs m))
         <$> List.filter (msg3_known db) q
  /\ no_user_warnings (snd (ra_sched.ul_sched_loop tti q db mg))
     = msg3_rnti <$> List.filter (fun m => negb (msg3_known db m)) q.
Proof.
  revert db mg. induction q as [|msg3 q IH]; intros db mg; [done|].
  cbn [ra_sched.ul_sched_loop List.filter].
  destruct (ue_db_find (msg3_rnti msg3) db) as [user|] eqn:Hfind.
  - assert (msg3_known db msg3 = true) as -> by (unfold msg3_known; by rewrite Hfind).
    cbn [negb].
    destruct (alloc_ul _ _ _ _ _ _) as [[ok user'] mg1].
    destruct (IH (ue_db_set (msg3_rnti msg3) user' db) mg1) as (Hk & Hc & Hw).
    destruct (ra_sched.ul_sched_loop _ _ _ _) as [[db' mg2] ev]. cbn [fst snd] in *.
    rewrite ue_db_set_keys in Hk. rewrite filter_known_set in Hc.
    rewrite filter_unknown_set in Hw.
    unfold alloc_ul_calls, no_user_warnings in *. rewrite !flat_map_app, Hc, Hw.
    split; [done|]. by destruct ok.
  - assert (msg3_known db msg3 = false) as -> by (unfold msg3_known; by rewrite Hfind).
    cbn [negb].
    destruct (IH db mg) as (Hk & Hc & Hw).
    destruct (ra_sched.ul_sched_loop _ _ _ _) as [[db' mg2] ev]. cbn [fst snd] in *.
    unfold alloc_ul_calls, no_user_warnings in *. cbn [flat_map app].
    by rewrite Hc, Hw.
Qed.

(** [ra_sched::ul_sched] empties the slot's Msg3 queue in one call.  Each
    pending Msg3 whose RNTI is in the UE database gets one call of [alloc_ul]
    with its PRBs and MCS, in the order of the queue; each Msg3 whose RNTI is
    not in the database gets one warning and no call.  The call neither adds
    nor removes a UE, and leaves the pending RARs alone. *)
Theorem ul_sched_drains rs ue_db sf :
  let r := ra_sched.ul_sched rs ue_db sf in
  fst (fst (fst r)) = rs
  /\ pending_msg3 (snd (fst r)) = []
  /\ slot_core (snd (fst r)) = slot_core sf
  /\ fst <$> snd (fst (fst r)) = fst <$> ue_db
  /\ alloc_ul_calls (snd r)
     = (fun m => (msg3_rnti m, msg3_n_prb m, msg3_L m, msg3_mcs m))
         <$> List.filter (msg3_known ue_db) (pending_msg3 sf)
  /\ no_user_warnings (snd r)
     = msg3_rnti <$> List.filter (fun m => negb (msg3_known ue_db m)) (pending_msg3 sf).
Proof.
  unfold ra_sched.ul_sched.
  destruct (ul_sched_loop_spec (tti_rx sf) (pending_msg3 sf) ue_db (ul_mask sf, sf_grid sf))
    as (Hk & Hc & Hw).
  destruct (ra_sched.ul_sched_loop _ _ _ _) as [[db mg] ev]. simpl in *.
  by rewrite Hk, Hc, Hw.
Qed.

Lemma sched_msg3_grants_spec cfg grants sf :
  (forall t m q, alloc_msg3_ok t m q = true) ->
  pending_msg3 (fst (ra_sched.sched_msg3_grants cfg grants sf))
  = pending_msg3 sf ++ (msg3_of_grant cfg <$> grants)
  /\ snd (ra_sched.sched_msg3_grants cfg grants sf)
     = (fun g => Debug_msg3_queued (data_temp_crnti g) (get_tti_tx_ul sf)) <$> grants
  /\ tti_rx (fst (ra_sched.sched_msg3_grants cfg grants sf)) = tti_rx sf.
Proof.
  intros Hok. revert sf. induction grants as [|grant grants IH]; intros sf; simpl.
  - by rewrite app_nil_r.
  - unfold msg3_of_grant at 1.
    destruct (srslte_ra_type2_from_riv _ _ _) as [L n_prb]. simpl.
    unfold alloc_msg3. rewrite Hok.
    match goal with |- context [ra_sched.sched_msg3_grants cfg grants ?s] =>
      destruct (IH s) as (Hp & He & Ht);
      destruct (ra_sched.sched_msg3_grants cfg grants s) as [sf2 ev] end.
    simpl in *. rewrite Hp, He, <- app_assoc. repeat split; done.
Qed.

(** [ra_sched::sched_msg3] on a slot that accepts every Msg3: the Msg3s of
    all the grants of all the scheduled RARs are appended to the slot's Msg3
    queue, RAR after RAR and grant after grant, each with the RNTI
    ([temp_crnti]) and the MCS of its grant and the PRBs decoded from its
    RIV; one debug line is written for each, and the slot stays bound to its
    TTI. *)
Theorem sched_msg3_enqueues cfg rars sf :
  (forall t m q, alloc_msg3_ok t m q = true) ->
  pending_msg3 (fst (ra_sched.sched_msg3 cfg rars sf))
  = pending_msg3 sf ++ (msg3_of_grant cfg <$> concat rars)
  /\ snd (ra_sched.sched_msg3 cfg rars sf)
     = (fun g => Debug_msg3_queued (data_temp_crnti g) (get_tti_tx_ul sf)) <$> concat rars
  /\ tti_rx (fst (ra_sched.sched_msg3 cfg rars sf)) = tti_rx sf.
Proof.
  intros Hok. revert sf. induction rars as [|grants rars IH]; intros sf; simpl.
  - by rewrite app_nil_r.
  - destruct (sched_msg3_grants_spec cfg grants sf Hok) as (Hp1 & He1 & Ht1).
    destruct (ra_sched.sched_msg3_grants cfg grants sf) as [sf1 ev1].
    destruct (IH sf1) as (Hp2 & He2 & Ht2).
    destruct (ra_sched.sched_msg3 cfg rars sf1) as [sf2 ev2]. simpl in *.
    rewrite Hp2, Hp1, He2, He1, !fmap_app, <- app_assoc, Ht2, Ht1.
    repeat split; try done. unfold get_tti_tx_ul. by rewrite Ht1.
Qed.
End RaMore.

(** * Further properties of the broadcast scheduler *)
Section BcMore.
Context `{Collaborators}.

Lemma sib_fires_true cfg sfn sf_idx tti i sib :
  bc_sched.sib_fires cfg sfn sf_idx tti i sib = true ->
  0 < len (bc_sched.cfg_sib cfg i)
  /\ bc_sched.is_in_window sib = true
  /\ bc_sched.n_tx sib < 4
  /\ ((i = 0%nat /\ sfn mod 2 = 0 /\ sf_idx = 5) \/ ((0 < i)%nat /\ sf_idx = 9)).
Proof.
  unfold bc_sched.sib_fires.
  destruct (0 <? len _) eqn:Hlen; [|done]. destruct (bc_sched.is_in_window sib); [|done].
  destruct (bc_sched.n_tx sib <? 4) eqn:Hn; [|done]. simpl.
  intros Hf. apply Z.ltb_lt in Hlen, Hn. repeat split; try done.
  apply orb_true_iff in Hf as [Hf|Hf].
  - apply andb_true_iff in Hf as [Hf H5]. apply andb_true_iff in Hf as [H0 H2].
    apply Z.eqb_eq in H0, H2, H5. left. split; [lia|done].
  - apply andb_true_iff in Hf as [Hf H9]. apply andb_true_iff in Hf as [H0 _].
    apply Z.ltb_lt in H0. apply Z.eqb_eq in H9. right. split; [lia|done].
Qed.

Lemma update_si_windows_from_lookup cfg sfn sf_idx tti i ps k :
  bc_sched.update_si_windows_from cfg sfn sf_idx tti i ps !! k
  = bc_sched.update_si_window cfg sfn sf_idx tti (i + k) <$> ps !! k.
Proof.
  revert i k. induction ps as [|sib ps IH]; intros i k; simpl; [done|].
  destruct k as [|k]; simpl.
  - by rewrite Nat.add_0_r.
  - rewrite IH. by replace (S i + k)%nat with (i + S k)%nat by lia.
Qed.

(** The loop of [alloc_sibs], entry by entry: the entry of index [i + k]
    is incremented when it fires and left alone otherwise. *)
Lemma alloc_sibs_from_lookup cfg aggr sfn sf_idx tti_rx tti i ps g k :
  fst (fst (bc_sched.alloc_sibs_from cfg aggr sfn sf_idx tti_rx tti i ps g)) !! k
  = (fun sib => if bc_sched.sib_fires cfg sfn sf_idx tti (i + k) sib
                then bc_sched.mk_sib (bc_sched.is_in_window sib) (bc_sched.window_start sib)
                                     (u32 (bc_sched.n_tx sib + 1))
                else sib) <$> ps !! k.
Proof.
  revert i g k. induction ps as [|sib ps IH]; intros i g k; [done|].
  cbn [bc_sched.alloc_sibs_from].
  assert (Hrec : forall g0 k0,
    fst (fst (bc_sched.alloc_sibs_from cfg aggr sfn sf_idx tti_rx tti (S i) ps g0)) !! k0
    = (fun sib0 => if bc_sched.sib_fires cfg sfn sf_idx tti (i + S k0) sib0
                   then bc_sched.mk_sib (bc_sched.is_in_window sib0)
                                        (bc_sched.window_start sib0)
                                        (u32 (bc_sched.n_tx sib0 + 1))
                   else sib0) <$> ps !! k0).
  { intros g0 k0. rewrite IH. by replace (S i + k0)%nat with (i + S k0)%nat by lia. }
  destruct (bc_sched.sib_fires cfg sfn sf_idx tti i sib) eqn:Hf.
  - destruct (alloc_bc _ _ _ _ _) as [o g1]. specialize (Hrec g1).
    destruct (bc_sched.alloc_sibs_from _ _ _ _ _ _ _ _ _) as [[ps' g2] ev].
    cbn [fst snd] in *. destruct k as [|k].
    + rewrite Nat.add_0_r. simpl. by rewrite Hf.
    + exact (Hrec k).
  - specialize (Hrec g).
    destruct (bc_sched.alloc_sibs_from _ _ _ _ _ _ _ _ _) as [[ps' g2] ev].
    cbn [fst snd] in *. destruct k as [|k].
    + rewrite Nat.add_0_r. simpl. by rewrite Hf.
    + exact (Hrec k).
Qed.

(** The calls that the loop makes for the SIB of index [j]. *)
Lemma alloc_sibs_from_calls cfg aggr sfn sf_idx tti_rx tti i ps g j :
  bc_calls_sib (Z.of_nat j)
    (snd (bc_sched.alloc_sibs_from cfg aggr sfn sf_idx tti_rx tti i ps g))
  = if decide (i <= j)%nat then
      match ps !! (j - i)%nat with
      | Some sib => if bc_sched.sib_fires cfg sfn sf_idx tti j sib
                    then [(aggr, bc_sched.n_tx sib)] else []
      | None => []
      end
    else [].
Proof.
  revert i g. induction ps as [|sib ps IH]; intros i g; simpl.
  - by destruct (decide _).
  - assert (Hrec : forall g0,
      bc_calls_sib (Z.of_nat j)
        (snd (bc_sched.alloc_sibs_from cfg aggr sfn sf_idx tti_rx tti (S i) ps g0))
      = if decide (S i <= j)%nat then
          match (sib :: ps) !! (j - i)%nat with
          | Some sib0 => if bc_sched.sib_fires cfg sfn sf_idx tti j sib0
                         then [(aggr, bc_sched.n_tx sib0)] else []
          | None => []
          end
        else []).
    { intros g0. rewrite IH. destruct (decide (S i <= j)%nat); [|done].
      by replace (j - i)%nat with (S (j - S i)) by lia. }
    destruct (bc_sched.sib_fires cfg sfn sf_idx tti i sib) eqn:Hf.
    + destruct (alloc_bc _ _ _ _ _) as [o g1]. specialize (Hrec g1).
      destruct (bc_sched.alloc_sibs_from _ _ _ _ _ _ _ _ _) as [[ps' g2] ev].
      cbn [fst snd] in *.
      change (Call_alloc_bc aggr (Z.of_nat i) (bc_sched.n_tx sib) :: ev)
        with ([Call_alloc_bc aggr (Z.of_nat i) (bc_sched.n_tx sib)] ++ ev).
      rewrite bc_calls_sib_app, Hrec. cbn [bc_calls_sib flat_map app].
      destruct (Z.eqb_spec (Z.of_nat i) (Z.of_nat j)) as [E|NE].
      * assert (i = j) as -> by lia. rewrite Nat.sub_diag. simpl. rewrite Hf.
        destruct (decide (S j <= j)%nat); [lia|]. by destruct (decide (j <= j)%nat); [|lia].
      * simpl. destruct (decide (S i <= j)%nat), (decide (i <= j)%nat); try done; lia.
    + specialize (Hrec g).
      destruct (bc_sched.alloc_sibs_from _ _ _ _ _ _ _ _ _) as [[ps' g2] ev].
      cbn [fst snd] in *. rewrite Hrec.
      destruct (decide (S i <= j)%nat), (decide (i <= j)%nat); try done; try lia.
      assert (i = j) as -> by lia. rewrite Nat.sub_diag. simpl. by rewrite Hf.
Qed.

Lemma bc_dl_sched_entry cfg bs sf i sib :
  bc_sched.pending_sibs bs !! i = Some sib ->
  let sib1 := bc_sched.update_si_window cfg (get_sfn sf) (get_sf_idx sf)
                                        (get_tti_tx_dl sf) i sib in
  let f := bc_sched.sib_fires cfg (get_sfn sf) (get_sf_idx sf) (get_tti_tx_dl sf) i sib1 in
  let r := bc_sched.dl_sched cfg bs sf in
  bc_sched.pending_sibs (fst (fst r)) !! i
  = Some (if f then bc_sched.mk_sib (bc_sched.is_in_window sib1) (bc_sched.window_start sib1)
                                    (u32 (bc_sched.n_tx sib1 + 1))
          else sib1)
  /\ bc_calls_sib (Z.of_nat i) (snd r) = (if f then [(2, bc_sched.n_tx sib1)] else [])
  /\ length (bc_sched.pending_sibs (fst (fst r))) = length (bc_sched.pending_sibs bs).
Proof.
  intros Hi sib1 f r. subst r.
  unfold bc_sched.dl_sched, bc_sched.alloc_sibs, bc_sched.update_si_windows.
  cbn [bc_sched.pending_sibs bc_sched.current_sfn bc_sched.current_sf_idx
       bc_sched.bc_aggr_level bc_sched.current_tti].
  match goal with |- context [bc_sched.alloc_sibs_from ?c ?a ?s ?x ?t ?d ?i0 ?ps ?g] =>
    pose proof (alloc_sibs_from_lookup c a s x t d i0 ps g i) as Hl;
    pose proof (alloc_sibs_from_calls c a s x t d i0 ps g i) as Hc;
    assert (Hlen : length (fst (fst (bc_sched.alloc_sibs_from c a s x t d i0 ps g)))
                   = length (bc_sched.pending_sibs bs));
    [|destruct (bc_sched.alloc_sibs_from c a s x t d i0 ps g) as [[ps' g2] ev2]] end.
  { apply Nat.le_antisymm; apply Nat.nlt_ge; intros Hlt.
    - pose proof (alloc_sibs_from_lookup cfg 2 (get_sfn sf) (get_sf_idx sf) (tti_rx sf)
                    (get_tti_tx_dl sf) 0
                    (bc_sched.update_si_windows_from cfg (get_sfn sf) (get_sf_idx sf)
                       (get_tti_tx_dl sf) 0 (bc_sched.pending_sibs bs)) (sf_grid sf)
                    (length (bc_sched.pending_sibs bs))) as Hk.
      rewrite update_si_windows_from_lookup in Hk.
      rewrite (lookup_ge_None_2 (bc_sched.pending_sibs bs)) in Hk by lia. simpl in Hk.
      apply lookup_ge_None in Hk. lia.
    - set (n := length (fst (fst (bc_sched.alloc_sibs_from cfg 2 (get_sfn sf) (get_sf_idx sf)
                 (tti_rx sf) (get_tti_tx_dl sf) 0
                 (bc_sched.update_si_windows_from cfg (get_sfn sf) (get_sf_idx sf)
                    (get_tti_tx_dl sf) 0 (bc_sched.pending_sibs bs)) (sf_grid sf))))) in *.
      pose proof (alloc_sibs_from_lookup cfg 2 (get_sfn sf) (get_sf_idx sf) (tti_rx sf)
                    (get_tti_tx_dl sf) 0
                    (bc_sched.update_si_windows_from cfg (get_sfn sf) (get_sf_idx sf)
                       (get_tti_tx_dl sf) 0 (bc_sched.pending_sibs bs)) (sf_grid sf) n) as Hk.
      rewrite update_si_windows_from_lookup in Hk.
      destruct (lookup_lt_is_Some_2 (bc_sched.pending_sibs bs) n Hlt) as [x Hx].
      rewrite Hx in Hk. simpl in Hk. apply lookup_lt_Some in Hk. subst n. lia. }
  rewrite update_si_windows_from_lookup, Hi in Hl.
  rewrite Nat.sub_0_r, update_si_windows_from_lookup, Hi in Hc.
  cbn [fst snd fmap option_fmap option_map] in *. simpl in Hl, Hc.
  fold sib1 in Hl, Hc. fold f in Hl, Hc.
  match goal with |- context [bc_sched.alloc_paging ?b ?s] =>
    pose proof (alloc_paging_no_bc b s (Z.of_nat i)) as Hpg;
    destruct (bc_sched.alloc_paging b s) as [sf3 ev3] end.
  cbn [fst snd bc_sched.pending_sibs] in *.
  split; [exact Hl|]. split; [|exact Hlen].
  rewrite bc_calls_sib_app, Hpg, app_nil_r, Hc.
  by destruct (decide (0 <= i)%nat); [|lia].
Qed.

(** [bc_sched::dl_sched] handles each SIB on its own.  For the SIB of index
    [i]: its window state is updated from its own state, its config and the
    TTI; [alloc_bc] is called for it at most once, at aggregation level 2 and
    with its [n_tx], exactly when the updated entry fires, and [n_tx] is then
    incremented.  The other SIBs have no influence. *)
Theorem bc_dl_sched_per_sib cfg bs sf i sib :
  bc_sched.pending_sibs bs !! i = Some sib ->
  let sib1 := bc_sched.update_si_window cfg (get_sfn sf) (get_sf_idx sf)
                                        (get_tti_tx_dl sf) i sib in
  let f := bc_sched.sib_fires cfg (get_sfn sf) (get_sf_idx sf) (get_tti_tx_dl sf) i sib1 in
  let r := bc_sched.dl_sched cfg bs sf in
  bc_sched.pending_sibs (fst (fst r)) !! i
  = Some (if f then bc_sched.mk_sib (bc_sched.is_in_window sib1) (bc_sched.window_start sib1)
                                    (u32 (bc_sched.n_tx sib1 + 1))
          else sib1)
  /\ bc_calls_sib (Z.of_nat i) (snd r) = (if f then [(2, bc_sched.n_tx sib1)] else [])
  /\ length (bc_sched.pending_sibs (fst (fst r))) = length (bc_sched.pending_sibs bs).
Proof. exact (bc_dl_sched_entry cfg bs sf i sib). Qed.

Lemma alloc_sibs_from_in cfg aggr sfn sf_idx tti_rx tti i ps g a idx n :
  In (Call_alloc_bc a idx n)
     (snd (bc_sched.alloc_sibs_from cfg aggr sfn sf_idx tti_rx tti i ps g)) ->
  a = aggr
  /\ exists k sib, idx = Z.of_nat (i + k) /\ ps !! k = Some sib /\ n = bc_sched.n_tx sib
                   /\ bc_sched.sib_fires cfg sfn sf_idx tti (i + k) sib = true.
Proof.
  revert i g. induction ps as [|sib ps IH]; intros i g; simpl; [done|].
  assert (Hrec : forall g0,
    In (Call_alloc_bc a idx n)
       (snd (bc_sched.alloc_sibs_from cfg aggr sfn sf_idx tti_rx tti (S i) ps g0)) ->
    a = aggr
    /\ exists k sib0, idx = Z.of_nat (i + k) /\ (sib :: ps) !! k = Some sib0
                      /\ n = bc_sched.n_tx sib0
                      /\ bc_sched.sib_fires cfg sfn sf_idx tti (i + k) sib0 = true).
  { intros g0 Hin. destruct (IH (S i) g0 Hin) as (-> & k & sib0 & -> & Hk & -> & Hf).
    split; [done|]. exists (S k), sib0.
    replace (i + S k)%nat with (S i + k)%nat by lia. done. }
  destruct (bc_sched.sib_fires cfg sfn sf_idx tti i sib) eqn:Hf.
  - destruct (alloc_bc _ _ _ _ _) as [o g1]. specialize (Hrec g1).
    destruct (bc_sched.alloc_sibs_from _ _ _ _ _ _ _ _ _) as [[ps' g2] ev]. simpl in *.
    intros [[= <- <- <-]|Hin]; [|by apply Hrec].
    split; [done|]. exists 0%nat, sib. rewrite Nat.add_0_r. done.
  - specialize (Hrec g).
    by destruct (bc_sched.alloc_sibs_from _ _ _ _ _ _ _ _ _) as [[ps' g2] ev].
Qed.

Lemma alloc_paging_in bs sf e :
  In e (snd (bc_sched.alloc_paging bs sf)) ->
  exists payload, e = Call_alloc_paging (bc_sched.bc_aggr_level bs) payload.
Proof.
  unfold bc_sched.alloc_paging. destruct rrc_is_paging_opportunity as [f|]; [|done].
  destruct (f _) as [o p]. destruct (_ && _); [|done].
  destruct (alloc_paging _ _ _ _). simpl. intros [<-|[]]. by eexists.
Qed.

(** Every broadcast allocation of [bc_sched::dl_sched] is made at
    aggregation level 2, for a SIB that has data, is in its window and has
    been sent fewer than 4 times; SIB1 is only allocated in subframe 5 of an
    even frame and every other SIB only in subframe 9, so SIB1 and another
    SIB are never allocated in the same TTI. *)
Theorem bc_alloc_subframes cfg bs sf a idx n :
  In (Call_alloc_bc a idx n) (snd (bc_sched.dl_sched cfg bs sf)) ->
  a = 2
  /\ 0 <= idx < Z.of_nat (length (bc_sched.pending_sibs bs))
  /\ 0 < len (bc_sched.cfg_sib cfg (Z.to_nat idx))
  /\ n < 4
  /\ ((idx = 0 /\ get_sfn sf mod 2 = 0 /\ get_sf_idx sf = 5)
      \/ (0 < idx /\ get_sf_idx sf = 9)).
Proof.
  unfold bc_sched.dl_sched, bc_sched.alloc_sibs, bc_sched.update_si_windows.
  cbn [bc_sched.pending_sibs bc_sched.current_sfn bc_sched.current_sf_idx
       bc_sched.bc_aggr_level bc_sched.current_tti].
  match goal with |- context [bc_sched.alloc_sibs_from ?c ?a0 ?s ?x ?t ?d ?i0 ?ps ?g] =>
    pose proof (alloc_sibs_from_in c a0 s x t d i0 ps g a idx n) as Hin;
    destruct (bc_sched.alloc_sibs_from c a0 s x t d i0 ps g) as [[ps' g2] ev2] end.
  match goal with |- context [bc_sched.alloc_paging ?b ?s] =>
    pose proof (alloc_paging_in b s (Call_alloc_bc a idx n)) as Hpg;
    destruct (bc_sched.alloc_paging b s) as [sf3 ev3] end.
  cbn [fst snd] in *. intros Hev. apply in_app_or in Hev as [Hev|Hev];
    [|by destruct (Hpg Hev) as [p [=]]].
  destruct (Hin Hev) as (-> & k & sib & -> & Hk & -> & Hf). simpl in Hf.
  rewrite update_si_windows_from_lookup in Hk.
  destruct (bc_sched.pending_sibs bs !! k) as [sib0|] eqn:Hk0; [|done].
  apply lookup_lt_Some in Hk0.
  apply sib_fires_true in Hf as (Hlen & _ & Hn & Hsub). simpl.
  rewrite Nat2Z.id. repeat split; try done; lia.
Qed.

(** A SIB without data ([sibs[i].len = 0]) is left alone: its entry is not
    touched and it is never allocated. *)
Theorem bc_silent_sib cfg bs sf i sib :
  bc_sched.pending_sibs bs !! i = Some sib ->
  len (bc_sched.cfg_sib cfg i) = 0 ->
  bc_sched.pending_sibs (fst (fst (bc_sched.dl_sched cfg bs sf))) !! i = Some sib
  /\ bc_calls_sib (Z.of_nat i) (snd (bc_sched.dl_sched cfg bs sf)) = [].
Proof.
  intros Hi Hlen. destruct (bc_dl_sched_entry cfg bs sf i sib Hi) as (Hs & Hc & _).
  cbv zeta in Hs, Hc.
  assert (Hu : bc_sched.update_si_window cfg (get_sfn sf) (get_sf_idx sf)
                 (get_tti_tx_dl sf) i sib = sib).
  { unfold bc_sched.update_si_window. by rewrite Hlen. }
  assert (Hf : bc_sched.sib_fires cfg (get_sfn sf) (get_sf_idx sf) (get_tti_tx_dl sf) i sib
               = false).
  { unfold bc_sched.sib_fires. by rewrite Hlen. }
  rewrite Hu, Hf in Hs, Hc. done.
Qed.

Lemma update_si_window_n_tx cfg sfn sf_idx tti i sib :
  0 <= bc_sched.n_tx sib <= 4 ->
  0 <= bc_sched.n_tx (bc_sched.update_si_window cfg sfn sf_idx tti i sib) <= 4.
Proof.
  intros Hn. unfold bc_sched.update_si_window.
  repeat (match goal with |- context [if ?b then _ else _] => destruct b end;
          simpl; try done; try lia).
Qed.

(** The transmission counter of a SIB stays between 0 and 4: when it is so
    for every SIB before [bc_sched::dl_sched], it is so afterwards, and the
    number of SIB entries does not change. *)
Theorem bc_n_tx_bounded cfg bs sf :
  Forall (fun sib => 0 <= bc_sched.n_tx sib <= 4) (bc_sched.pending_sibs bs) ->
  Forall (fun sib => 0 <= bc_sched.n_tx sib <= 4)
         (bc_sched.pending_sibs (fst (fst (bc_sched.dl_sched cfg bs sf))))
  /\ length (bc_sched.pending_sibs (fst (fst (bc_sched.dl_sched cfg bs sf))))
     = length (bc_sched.pending_sibs bs).
Proof.
  intros Hb.
  assert (Hlen : length (bc_sched.pending_sibs (fst (fst (bc_sched.dl_sched cfg bs sf))))
                 = length (bc_sched.pending_sibs bs)).
  { destruct (bc_sched.pending_sibs bs) as [|sib0 ps] eqn:Hq.
    - unfold bc_sched.dl_sched, bc_sched.alloc_sibs, bc_sched.update_si_windows.
      cbn [bc_sched.pending_sibs]. rewrite Hq. simpl.
      by destruct (bc_sched.alloc_paging _ _).
    - destruct (bc_dl_sched_entry cfg bs sf 0 sib0) as (_ & _ & Hl); [by rewrite Hq|].
      cbv zeta in Hl. by rewrite Hl, Hq. }
  split; [|done]. apply Forall_lookup. intros i sib' Hi'.
  destruct (bc_sched.pending_sibs bs !! i) as [sib|] eqn:Hi.
  - destruct (bc_dl_sched_entry cfg bs sf i sib Hi) as (Hs & _ & _). cbv zeta in Hs.
    rewrite Hs in Hi'. injection Hi' as <-.
    pose proof (update_si_window_n_tx cfg (get_sfn sf) (get_sf_idx sf) (get_tti_tx_dl sf)
                  i sib (proj1 (Forall_lookup _ _) Hb i sib Hi)) as Hu.
    destruct (bc_sched.sib_fires _ _ _ _ _ _) eqn:Hf; [|done].
    apply sib_fires_true in Hf as (_ & _ & Hn & _). simpl. rewrite u32_small by lia. lia.
  - apply lookup_ge_None in Hi. apply lookup_lt_Some in Hi'. lia.
Qed.

Lemma alloc_sibs_from_no_paging cfg aggr sfn sf_idx tti_rx tti i ps g :
  paging_calls (snd (bc_sched.alloc_sibs_from cfg aggr sfn sf_idx tti_rx tti i ps g)) = [].
Proof.
  revert i g. induction ps as [|sib ps IH]; intros i g; simpl; [done|].
  destruct (bc_sched.sib_fires _ _ _ _ _ _).
  - destruct (alloc_bc _ _ _ _ _) as [o g1]. specialize (IH (S i) g1).
    by destruct (bc_sched.alloc_sibs_from _ _ _ _ _ _ _ _ _) as [[ps' g2] ev].
  - specialize (IH (S i) g).
    by destruct (bc_sched.alloc_sibs_from _ _ _ _ _ _ _ _ _) as [[ps' g2] ev].
Qed.

(** Paging in [bc_sched::dl_sched]: RRC is asked about [tti_tx_dl] of the
    slot; [alloc_paging] is called once, at aggregation level 2 and with the
    payload that RRC reported, when RRC reports a paging opportunity with a
    payload of more than 0 bytes, and not at all otherwise or without RRC. *)
Theorem bc_paging_calls cfg bs sf :
  paging_calls (snd (bc_sched.dl_sched cfg bs sf))
  = match rrc_is_paging_opportunity with
    | Some is_paging_opportunity =>
        if fst (is_paging_opportunity (get_tti_tx_dl sf))
           && (0 <? snd (is_paging_opportunity (get_tti_tx_dl sf)))
        then [(2, snd (is_paging_opportunity (get_tti_tx_dl sf)))] else []
    | None => []
    end.
Proof.
  unfold bc_sched.dl_sched, bc_sched.alloc_sibs, bc_sched.update_si_windows.
  cbn [bc_sched.pending_sibs bc_sched.current_sfn bc_sched.current_sf_idx
       bc_sched.bc_aggr_level bc_sched.current_tti].
  match goal with |- context [bc_sched.alloc_sibs_from ?c ?a0 ?s ?x ?t ?d ?i0 ?ps ?g] =>
    pose proof (alloc_sibs_from_no_paging c a0 s x t d i0 ps g) as Hs;
    destruct (bc_sched.alloc_sibs_from c a0 s x t d i0 ps g) as [[ps' g2] ev2] end.
  unfold bc_sched.alloc_paging. cbn [bc_sched.current_tti bc_sched.bc_aggr_level fst snd] in *.
  destruct rrc_is_paging_opportunity as [f|].
  - destruct (f (get_tti_tx_dl sf)) as [o p]. cbn [fst snd].
    destruct (o && (0 <? p)).
    + destruct (alloc_paging _ _ _ _) as [o' g3]. cbn [fst snd].
      unfold paging_calls in *. by rewrite flat_map_app, Hs.
    + cbn [fst snd]. unfold paging_calls in *. by rewrite flat_map_app, Hs.
  - cbn [fst snd]. unfold paging_calls in *. by rewrite flat_map_app, Hs.
Qed.
End BcMore.

(** * Further properties of the carrier scheduler *)
Section CarrierMore.
Context `{Collaborators}.

Lemma dl_ctrl_events_app evs1 evs2 :
  dl_ctrl_events (evs1 ++ evs2) = dl_ctrl_events evs1 ++ dl_ctrl_events evs2.
Proof. apply List.filter_app. Qed.

(** The PRBs that [carrier_cfg] reserves for PRACH and for PUCCH do not
    overlap exactly when the 6 PRACH PRBs lie between the two PUCCH regions:
    [nrb_pucch <= prach_freq_offset] and
    [prach_freq_offset + 6 <= nof_prb - nrb_pucch]. *)
Theorem cfg_masks_disjoint cfg :
  0 < nrb_pucch cfg <= nof_prb cfg ->
  0 <= prach_freq_offset cfg ->
  prach_freq_offset cfg + 6 <= nof_prb cfg ->
  nof_prb cfg < 2 ^ 32 ->
  Z.land (carrier_sched.cfg_prach_mask cfg) (carrier_sched.cfg_pucch_mask cfg) = 0
  <-> nrb_pucch cfg <= prach_freq_offset cfg
      /\ prach_freq_offset cfg + 6 <= nof_prb cfg - nrb_pucch cfg.
Proof.
  intros Hn Ho Hp Hb.
  assert (Hbit : forall i, 0 <= i ->
    Z.testbit (Z.land (carrier_sched.cfg_prach_mask cfg) (carrier_sched.cfg_pucch_mask cfg)) i
    = ((prach_freq_offset cfg <=? i) && (i <? prach_freq_offset cfg + 6))
      && ((i <? nrb_pucch cfg)
          || ((nof_prb cfg - nrb_pucch cfg <=? i) && (i <? nof_prb cfg)))).
  { intros i Hi. rewrite Z.land_spec, cfg_prach_mask_testbit, cfg_pucch_mask_testbit by lia.
    done. }
  split.
  - intros Hz.
    assert (Hall : forall i, 0 <= i ->
      ((prach_freq_offset cfg <=? i) && (i <? prach_freq_offset cfg + 6))
      && ((i <? nrb_pucch cfg)
          || ((nof_prb cfg - nrb_pucch cfg <=? i) && (i <? nof_prb cfg))) = false).
    { intros i Hi. rewrite <- Hbit by done. rewrite Hz. apply Z.testbit_0_l. }
    split.
    + destruct (Z.le_gt_cases (nrb_pucch cfg) (prach_freq_offset cfg)) as [|Hlt]; [done|].
      specialize (Hall (prach_freq_offset cfg) Ho).
      destruct (Z.leb_spec (prach_freq_offset cfg) (prach_freq_offset cfg)); [|lia].
      destruct (Z.ltb_spec (prach_freq_offset cfg) (prach_freq_offset cfg + 6)); [|lia].
      destruct (Z.ltb_spec (prach_freq_offset cfg) (nrb_pucch cfg)); [done|lia].
    + destruct (Z.le_gt_cases (prach_freq_offset cfg + 6) (nof_prb cfg - nrb_pucch cfg))
        as [|Hlt]; [done|].
      specialize (Hall (Z.max (prach_freq_offset cfg) (nof_prb cfg - nrb_pucch cfg))
                       ltac:(lia)).
      remember (Z.max (prach_freq_offset cfg) (nof_prb cfg - nrb_pucch cfg)) as m eqn:Hm.
      destruct (Z.leb_spec (prach_freq_offset cfg) m); [|lia].
      destruct (Z.ltb_spec m (prach_freq_offset cfg + 6)); [|lia].
      destruct (Z.leb_spec (nof_prb cfg - nrb_pucch cfg) m); [|lia].
      destruct (Z.ltb_spec m (nof_prb cfg)); [|lia].
      by rewrite orb_true_r in Hall.
  - intros [H1 H2]. apply Z.bits_inj'. intros i Hi. rewrite Hbit, Z.testbit_0_l by done.
    destruct (Z.leb_spec (prach_freq_offset cfg) i), (Z.ltb_spec i (prach_freq_offset cfg + 6)),
      (Z.ltb_spec i (nrb_pucch cfg)), (Z.leb_spec (nof_prb cfg - nrb_pucch cfg) i),
      (Z.ltb_spec i (nof_prb cfg)); simpl; try done; lia.
Qed.

(** On a slot without pending Msg3 whose uplink mask does not touch the
    PUCCH PRBs (as after [new_tti]), and with PRACH and PUCCH masks that do
    not overlap, [alloc_ul_users] writes no collision error: all it writes
    is the PRACH debug line on a PRACH opportunity. *)
Theorem alloc_ul_users_no_collision cfg cs sf :
  pending_msg3 sf = [] ->
  Z.land (ul_mask sf) (carrier_sched.pucch_mask cs) = 0 ->
  Z.land (carrier_sched.prach_mask cs) (carrier_sched.pucch_mask cs) = 0 ->
  snd (carrier_sched.alloc_ul_users cfg cs sf)
  = Call_alloc_ul_users ::
    (if srslte_prach_tti_opportunity_config_fdd (prach_config cfg) (get_tti_tx_ul sf) (-1)
     then [Debug_prach_rbs (carrier_sched.prach_mask cs)] else []).
Proof.
  intros Hq Hu Hp.
  unfold carrier_sched.alloc_ul_users, carrier_sched.alloc_ul_users_pre, ra_sched.ul_sched.
  destruct (srslte_prach_tti_opportunity_config_fdd _ _ _); simpl; rewrite Hq; simpl.
  - rewrite Hp. destruct (ul_metric_sched_users _ _ _) as [db mg].
    simpl. by rewrite andb_false_r.
  - rewrite Hu. destruct (ul_metric_sched_users _ _ _) as [db mg].
    simpl. by rewrite andb_false_r.
Qed.

(** ** What the steps of [generate_tti_result] leave alone in the carrier *)

Lemma ul_sched_loop_no_ctrl tti q db mg :
  dl_ctrl_events (snd (ra_sched.ul_sched_loop tti q db mg)) = [].
Proof.
  revert db mg. induction q as [|msg3 q IH]; intros db mg; simpl; [done|].
  destruct (ue_db_find _ _) as [user|].
  - destruct (alloc_ul _ _ _ _ _ _) as [[ok user'] mg1].
    specialize (IH (ue_db_set (msg3_rnti msg3) user' db) mg1).
    destruct (ra_sched.ul_sched_loop _ _ _ _) as [[db' mg2] ev]. simpl in *.
    by destruct ok.
  - specialize (IH db mg).
    by destruct (ra_sched.ul_sched_loop _ _ _ _) as [[db' mg2] ev].
Qed.

Lemma alloc_ul_users_static cfg cs sf :
  let r := carrier_sched.alloc_ul_users cfg cs sf in
  carrier_static (snd (fst (fst r))) = carrier_static cs
  /\ carrier_subs (snd (fst (fst r))) = carrier_subs cs
  /\ dl_ctrl_events (snd r) = [].
Proof.
  unfold carrier_sched.alloc_ul_users, carrier_sched.alloc_ul_users_pre, ra_sched.ul_sched.
  destruct (srslte_prach_tti_opportunity_config_fdd _ _ _).
  - match goal with |- context [ra_sched.ul_sched_loop ?t ?q ?db ?mg] =>
      pose proof (ul_sched_loop_no_ctrl t q db mg) as Hu;
      destruct (ra_sched.ul_sched_loop t q db mg) as [[db' mg'] ev] end.
    match goal with |- context [ul_metric_sched_users ?t ?db ?mg] =>
      destruct (ul_metric_sched_users t db mg) as [db'' mg''] end.
    simpl in *. repeat split; try done.
    unfold dl_ctrl_events in *. simpl. rewrite !List.filter_app, Hu. simpl.
    by destruct (_ && _).
  - match goal with |- context [ra_sched.ul_sched_loop ?t ?q ?db ?mg] =>
      pose proof (ul_sched_loop_no_ctrl t q db mg) as Hu;
      destruct (ra_sched.ul_sched_loop t q db mg) as [[db' mg'] ev] end.
    match goal with |- context [ul_metric_sched_users ?t ?db ?mg] =>
      destruct (ul_metric_sched_users t db mg) as [db'' mg''] end.
    simpl in *. repeat split; try done.
    unfold dl_ctrl_events in *. simpl. rewrite !List.filter_app, Hu. simpl.
    by destruct (_ && _).
Qed.

Lemma alloc_dl_users_static cfg cs sf :
  let r := carrier_sched.alloc_dl_users cfg cs sf in
  carrier_static (fst (fst r)) = carrier_static cs
  /\ carrier_subs (fst (fst r)) = carrier_subs cs
  /\ dl_ctrl_events (snd r) = [].
Proof.
  unfold carrier_sched.alloc_dl_users. destruct (negb _); [done|].
  by destruct (dl_metric_sched_users _ _ _) as [db g2].
Qed.

Lemma round_robin_static cfg tti cs2 sf2 cs3 sf3 ev3 cs4 sf4 ev4 cs5 sf5 ev5 :
  (cs3, sf3, ev3) = (if tti mod 2 =? 0
                     then let '(_, c, s, e) := carrier_sched.alloc_ul_users cfg cs2 sf2 in
                          (c, s, e)
                     else (cs2, sf2, [])) ->
  (cs4, sf4, ev4) = carrier_sched.alloc_dl_users cfg cs3 sf3 ->
  (cs5, sf5, ev5) = (if tti mod 2 =? 1
                     then let '(_, c, s, e) := carrier_sched.alloc_ul_users cfg cs4 sf4 in
                          (c, s, e)
                     else (cs4, sf4, [])) ->
  carrier_static cs5 = carrier_static cs2
  /\ carrier_subs cs5 = carrier_subs cs2
  /\ dl_ctrl_events (ev3 ++ ev4 ++ ev5) = [].
Proof.
  intros H3 H4 H5.
  pose proof (alloc_dl_users_static cfg cs3 sf3) as (Hd1 & Hd2 & Hd3).
  rewrite <- H4 in Hd1, Hd2, Hd3. cbn [fst snd] in *.
  destruct (tti mod 2 =? 0), (tti mod 2 =? 1).
  - pose proof (alloc_ul_users_static cfg cs2 sf2) as (Hu1 & Hu2 & Hu3).
    pose proof (alloc_ul_users_static cfg cs4 sf4) as (Hv1 & Hv2 & Hv3).
    destruct (carrier_sched.alloc_ul_users cfg cs2 sf2) as [[[ret c] s] e].
    destruct (carrier_sched.alloc_ul_users cfg cs4 sf4) as [[[ret' c'] s'] e'].
    cbn [fst snd] in *. injection H3 as -> -> ->. injection H5 as -> -> ->.
    rewrite !dl_ctrl_events_app, Hu3, Hd3, Hv3, Hv1, Hv2, Hd1, Hd2, Hu1, Hu2. done.
  - pose proof (alloc_ul_users_static cfg cs2 sf2) as (Hu1 & Hu2 & Hu3).
    destruct (carrier_sched.alloc_ul_users cfg cs2 sf2) as [[[ret c] s] e].
    cbn [fst snd] in *. injection H3 as -> -> ->. injection H5 as -> -> ->.
    rewrite !dl_ctrl_events_app, Hu3, Hd3, Hd1, Hd2, Hu1, Hu2. done.
  - pose proof (alloc_ul_users_static cfg cs4 sf4) as (Hv1 & Hv2 & Hv3).
    destruct (carrier_sched.alloc_ul_users cfg cs4 sf4) as [[[ret' c'] s'] e'].
    cbn [fst snd] in *. injection H3 as -> -> ->. injection H5 as -> -> ->.
    rewrite !dl_ctrl_events_app, Hd3, Hv3, Hv1, Hv2, Hd1, Hd2. done.
  - injection H3 as -> -> ->. injection H5 as -> -> ->.
    rewrite !dl_ctrl_events_app, Hd3, Hd1, Hd2. done.
Qed.

Lemma generate_phich_no_ctrl cfg db sf :
  dl_ctrl_events (snd (carrier_sched.generate_phich cfg db sf)) = [].
Proof.
  unfold carrier_sched.generate_phich.
  assert (forall tti nof arr,
            dl_ctrl_events (snd (carrier_sched.generate_phich_loop cfg tti db nof arr)) = [])
    as Hev.
  { intros tti. induction db as [|user db IH]; intros nof arr; [done|].
    rewrite generate_phich_loop_cons. destruct (phich_due _ _ _); [|apply IH].
    simpl. apply IH. }
  specialize (Hev (get_tti_rx sf) 0 (ul_phich sf)).
  by destruct (carrier_sched.generate_phich_loop _ _ _ _ _) as [[nof' arr'] ev].
Qed.

(** A first invocation of [generate_tti_result(tti_rx)] on a slot whose
    previous downlink TTI is blacked out in [sf_dl_mask] skips the downlink
    control part: it returns whatever the fuel (the RAR loop is not entered),
    leaves the broadcast scheduler and the pending RARs as they are, makes no
    broadcast, paging or RAR allocation, queues no Msg3, and changes no slot
    of the ring but the one it returns.  The mask is read at the
    [tti_tx_dl] that the slot has before [new_tti] rebinds it. *)
Theorem generate_tti_result_blackout fuel cfg cs tti tti_sched :
  carrier_sched.sf_scheds cs !! carrier_sched.get_sf_sched_idx cs tti = Some tti_sched ->
  tti <> get_tti_rx tti_sched ->
  carrier_sched.dl_mask_at (carrier_sched.sf_dl_mask cs) (get_tti_tx_dl tti_sched) <> 0 ->
  exists cs' evs,
    carrier_sched.generate_tti_result fuel cfg cs tti
    = Some (carrier_sched.get_sf_sched_idx cs tti, cs', evs)
    /\ carrier_subs cs' = carrier_subs cs
    /\ dl_ctrl_events evs = []
    /\ length (carrier_sched.sf_scheds cs') = length (carrier_sched.sf_scheds cs)
    /\ (forall k, k <> carrier_sched.get_sf_sched_idx cs tti ->
          carrier_sched.sf_scheds cs' !! k = carrier_sched.sf_scheds cs !! k).
Proof.
  intros Hlook Hne Hmask. unfold carrier_sched.generate_tti_result. rewrite Hlook.
  destruct (Z.eqb_spec tti (get_tti_rx tti_sched)); [done|]. cbn [negb]. cbv zeta.
  destruct (Z.eqb_spec (carrier_sched.dl_mask_at (carrier_sched.sf_dl_mask cs)
                          (get_tti_tx_dl tti_sched)) 0) as [|_]; [done|].
  pose proof (generate_phich_no_ctrl cfg (carrier_sched.ue_db cs)
                (new_tti tti (nof_ctrl_symbols cfg) tti_sched)) as Hev1.
  destruct (carrier_sched.generate_phich _ _ _) as [sf1 ev1]. cbn [fst snd] in *.
  cbn [carrier_sched.dl_ctrl carrier_sched.enqueue_msg3].
  destruct (if tti mod 2 =? 0 then _ else _) as [[cs3 sf3] ev3] eqn:H3.
  destruct (carrier_sched.alloc_dl_users cfg cs3 sf3) as [[cs4 sf4] ev4] eqn:H4.
  destruct (if tti mod 2 =? 1 then _ else _) as [[cs5 sf5] ev5] eqn:H5.
  destruct (round_robin_static cfg tti cs sf1 cs3 sf3 ev3 cs4 sf4 ev4 cs5 sf5 ev5
              (eq_sym H3) (eq_sym H4) (eq_sym H5)) as (Hs5 & Hb5 & Hev5).
  destruct (generate_dcis _ _ _) as [db6 g6].
  eexists _, _. split; [reflexivity|].
  unfold carrier_static, carrier_subs in *.
  injection Hs5 as Hsf _ _ _. injection Hb5 as Hbc Hra.
  cbn [carrier_sched.sf_scheds carrier_sched.set_ue_db carrier_sched.set_sf_sched
       carrier_sched.bc_sched_ptr carrier_sched.ra_sched_ptr].
  rewrite Hbc, Hra, Hsf. split; [done|]. split.
  - rewrite !dl_ctrl_events_app, Hev1. cbn [app].
    rewrite !dl_ctrl_events_app in Hev5.
    apply app_eq_nil in Hev5 as [-> Hev5]. apply app_eq_nil in Hev5 as [-> ->]. done.
  - split; [by rewrite length_insert|]. intros k Hk. by rewrite list_lookup_insert_ne.
Qed.

Lemma dl_ctrl_static fuel cfg dl_active cs sf cs' sf' ev :
  carrier_sched.dl_ctrl fuel cfg dl_active cs sf = Some (cs', sf', ev) ->
  carrier_static cs' = carrier_static cs.
Proof.
  unfold carrier_sched.dl_ctrl. destruct dl_active; [|by intros [= <- <- <-]].
  destruct (bc_sched.dl_sched _ _ _) as [[bs sf1] ev1].
  destruct (ra_sched.dl_sched _ _ _ _) as [[[rs sf2] ev2]|]; [|done].
  by intros [= <- <- <-].
Qed.

Lemma set_pending_msg3_same (sf : sf_sched) :
  set_pending_msg3 sf (pending_msg3 sf ++ []) = sf.
Proof. destruct sf. unfold set_pending_msg3. simpl. by rewrite app_nil_r. Qed.

Lemma sched_msg3_grants_appends cfg grants sf :
  exists added,
    fst (ra_sched.sched_msg3_grants cfg grants sf)
    = set_pending_msg3 sf (pending_msg3 sf ++ added).
Proof.
  revert sf. induction grants as [|grant grants IH]; intros sf; simpl.
  - exists []. by rewrite set_pending_msg3_same.
  - destruct (srslte_ra_type2_from_riv _ _ _) as [L n_prb].
    unfold alloc_msg3. destruct (alloc_msg3_ok _ _ _).
    + match goal with |- context [ra_sched.sched_msg3_grants cfg grants ?s] =>
        destruct (IH s) as [added Ha];
        destruct (ra_sched.sched_msg3_grants cfg grants s) as [sf2 ev] end.
      simpl in *. eexists (_ :: added). rewrite Ha.
      unfold set_pending_msg3. simpl. by rewrite <- app_assoc.
    + destruct (IH sf) as [added Ha].
      destruct (ra_sched.sched_msg3_grants cfg grants sf) as [sf2 ev]. simpl in *.
      by exists added.
Qed.

Lemma sched_msg3_appends cfg rars sf :
  exists added,
    fst (ra_sched.sched_msg3 cfg rars sf) = set_pending_msg3 sf (pending_msg3 sf ++ added).
Proof.
  revert sf. induction rars as [|grants rars IH]; intros sf; simpl.
  - exists []. by rewrite set_pending_msg3_same.
  - destruct (sched_msg3_grants_appends cfg grants sf) as [a1 H1].
    destruct (ra_sched.sched_msg3_grants cfg grants sf) as [sf1 ev1].
    destruct (IH sf1) as [a2 H2].
    destruct (ra_sched.sched_msg3 cfg rars sf1) as [sf2 ev2]. simpl in *.
    exists (a1 ++ a2). rewrite H2, H1. unfold set_pending_msg3. simpl.
    by rewrite <- app_assoc.
Qed.

Lemma enqueue_msg3_ring cfg dl_active tti rars cs :
  let r := carrier_sched.enqueue_msg3 cfg dl_active tti rars cs in
  let j := carrier_sched.get_sf_sched_idx cs (u32 (tti + MSG3_DELAY_MS)) in
  length (carrier_sched.sf_scheds (fst r)) = length (carrier_sched.sf_scheds cs)
  /\ carrier_sched.sf_dl_mask (fst r) = carrier_sched.sf_dl_mask cs
  /\ carrier_sched.pucch_mask (fst r) = carrier_sched.pucch_mask cs
  /\ carrier_sched.prach_mask (fst r) = carrier_sched.prach_mask cs
  /\ (forall k, k <> j ->
        carrier_sched.sf_scheds (fst r) !! k = carrier_sched.sf_scheds cs !! k)
  /\ (forall sf, carrier_sched.sf_scheds cs !! j = Some sf ->
        exists added,
          carrier_sched.sf_scheds (fst r) !! j
          = Some (set_pending_msg3 sf (pending_msg3 sf ++ added))).
Proof.
  unfold carrier_sched.enqueue_msg3. destruct dl_active.
  - destruct (carrier_sched.sf_scheds cs !! _) as [sfm|] eqn:Hm.
    + destruct (sched_msg3_appends cfg rars sfm) as [added Ha].
      destruct (ra_sched.sched_msg3 cfg rars sfm) as [sf' ev]. simpl in *.
      split; [by rewrite length_insert|]. repeat split; try done.
      * intros k Hk. by rewrite list_lookup_insert_ne.
      * intros sf [= <-]. exists added.
        rewrite list_lookup_insert_eq by (by eapply lookup_lt_Some). by rewrite Ha.
    + simpl. by repeat split.
  - simpl. repeat split; try done. intros sf Hsf. exists [].
    by rewrite set_pending_msg3_same.
Qed.

(** What an invocation of [generate_tti_result(tti_rx)] that returns does
    to the carrier: the slot it returns is the one of [tti_rx] in the ring;
    the ring keeps its length, and the blackout mask and the PUCCH and PRACH
    masks are not written.  Of the other slots only the one of
    [tti_rx + MSG3_DELAY_MS] may change, and all that changes there is its
    queue of pending Msg3, which only grows at the tail. *)
Theorem generate_tti_result_ring fuel cfg cs tti i cs' evs :
  carrier_sched.generate_tti_result fuel cfg cs tti = Some (i, cs', evs) ->
  let j := carrier_sched.get_sf_sched_idx cs (u32 (tti + MSG3_DELAY_MS)) in
  i = carrier_sched.get_sf_sched_idx cs tti
  /\ length (carrier_sched.sf_scheds cs') = length (carrier_sched.sf_scheds cs)
  /\ carrier_sched.sf_dl_mask cs' = carrier_sched.sf_dl_mask cs
  /\ carrier_sched.pucch_mask cs' = carrier_sched.pucch_mask cs
  /\ carrier_sched.prach_mask cs' = carrier_sched.prach_mask cs
  /\ (forall k, k <> i -> k <> j ->
        carrier_sched.sf_scheds cs' !! k = carrier_sched.sf_scheds cs !! k)
  /\ (j <> i -> forall sf, carrier_sched.sf_scheds cs !! j = Some sf ->
        exists added,
          carrier_sched.sf_scheds cs' !! j
          = Some (set_pending_msg3 sf (pending_msg3 sf ++ added))).
Proof.
  unfold carrier_sched.generate_tti_result.
  destruct (carrier_sched.sf_scheds cs !! carrier_sched.get_sf_sched_idx cs tti)
    as [tti_sched|] eqn:Hlook; [|done].
  destruct (negb (tti =? get_tti_rx tti_sched)).
  - destruct (carrier_sched.generate_phich _ _ _) as [sf1 ev1].
    destruct (carrier_sched.dl_ctrl _ _ _ _ _) as [[[cs2 sf2] ev2]|] eqn:Hctrl; [|done].
    apply dl_ctrl_static in Hctrl.
    destruct (if tti mod 2 =? 0 then _ else _) as [[cs3 sf3] ev3] eqn:H3.
    destruct (carrier_sched.alloc_dl_users cfg cs3 sf3) as [[cs4 sf4] ev4] eqn:H4.
    destruct (if tti mod 2 =? 1 then _ else _) as [[cs5 sf5] ev5] eqn:H5.
    destruct (round_robin_static cfg tti cs2 sf2 cs3 sf3 ev3 cs4 sf4 ev4 cs5 sf5 ev5
                (eq_sym H3) (eq_sym H4) (eq_sym H5)) as (Hs5 & _ & _).
    rewrite Hctrl in Hs5. unfold carrier_static in Hs5. injection Hs5 as Hsf Hdl Hpu Hpr.
    destruct (generate_dcis _ _ _) as [db6 g6].
    match goal with |- context [carrier_sched.enqueue_msg3 ?c ?a ?t ?r ?s] =>
      pose proof (enqueue_msg3_ring c a t r s) as (Hl7 & Hdl7 & Hpu7 & Hpr7 & Hk7 & Hj7);
      destruct (carrier_sched.enqueue_msg3 c a t r s) as [cs7 ev7] end.
    cbn [fst snd] in *.
    unfold carrier_sched.get_sf_sched_idx in Hk7, Hj7.
    cbn [carrier_sched.sf_scheds carrier_sched.set_ue_db carrier_sched.set_sf_sched
         carrier_sched.sf_dl_mask carrier_sched.pucch_mask carrier_sched.prach_mask] in *.
    rewrite length_insert, Hsf in *.
    intros [= <- <- <-]. unfold carrier_sched.get_sf_sched_idx.
    cbn [carrier_sched.sf_scheds carrier_sched.set_ue_db carrier_sched.sf_dl_mask
         carrier_sched.pucch_mask carrier_sched.prach_mask].
    repeat split; try congruence.
    + intros k Hki Hkj. rewrite Hk7 by done. by rewrite list_lookup_insert_ne.
    + intros Hji sf Hsfj. apply Hj7. by rewrite list_lookup_insert_ne.
  - intros [= <- <- <-]. cbv zeta. repeat split; try done.
    intros _ sf Hsf. exists []. by rewrite set_pending_msg3_same.
Qed.

(** After [set_dl_tti_mask(tti_mask, nof_sfs)] the blackout mask is read
    cyclically over the first [nof_sfs] bytes of [tti_mask]: on a slot whose
    [tti_tx_dl mod nof_sfs] selects a byte that is not 0, [alloc_dl_users]
    returns at once, calling no metric and leaving the slot and the UE
    database as they are. *)
Theorem set_dl_tti_mask_blocks cfg cs tti_mask nof_sfs sf b :
  (0 < nof_sfs <= length tti_mask)%nat ->
  tti_mask !! Z.to_nat (get_tti_tx_dl sf mod Z.of_nat nof_sfs) = Some b ->
  b <> 0 ->
  carrier_sched.alloc_dl_users cfg (carrier_sched.set_dl_tti_mask cs tti_mask nof_sfs) sf
  = (carrier_sched.set_dl_tti_mask cs tti_mask nof_sfs, sf, [Call_alloc_dl_users]).
Proof.
  intros Hn Hb Hnz. unfold carrier_sched.alloc_dl_users, carrier_sched.dl_mask_at.
  cbn [carrier_sched.sf_dl_mask carrier_sched.set_dl_tti_mask].
  rewrite length_take, Nat.min_l by lia.
  pose proof (Z.mod_pos_bound (get_tti_tx_dl sf) (Z.of_nat nof_sfs) ltac:(lia)) as Hm.
  rewrite lookup_take_lt by lia. rewrite Hb. simpl.
  by destruct (Z.eqb_spec b 0).
Qed.
End CarrierMore.

(** * The further properties on concrete inputs *)

Lemma dl_rach_info_same_occasion_witness :
  prach_tti <$> ra_sched.pending_rars
    (snd (fst (ra_sched.dl_rach_info (H := mock two_grants_per_call)
       (snd (fst (ra_sched.dl_rach_info (H := mock two_grants_per_call)
                    (ra_sched.mk [example_rar 100 3] 2) (example_info 200 3))))
       (example_info 200 7))))
  = prach_tti <$> ra_sched.pending_rars
      (snd (fst (ra_sched.dl_rach_info (H := mock two_grants_per_call)
                   (ra_sched.mk [example_rar 100 3] 2) (example_info 200 3)))).
Proof.
  exact (proj1 (dl_rach_info_same_occasion (H := mock two_grants_per_call)
                  (ra_sched.mk [example_rar 100 3] 2) (example_info 200 3)
                  (example_info 200 7) eq_refl)).
Defined.

Lemma rars_keyed_kept_witness :
  rars_keyed (ra_sched.pending_rars
    (snd (fst (ra_sched.dl_rach_info (H := mock two_grants_per_call)
                 (ra_sched.mk [example_rar 100 3] 2) (example_info 101 7)))))
  /\ rars_keyed (snd (fst (fst
       (ra_sched.loop_iter (H := mock two_grants_per_call) example_cfg 100 104 2 3
          (ra_sched.Next, [example_rar 100 3], 0, []))))).
Proof.
  assert (Hk : rars_keyed [example_rar 100 3]).
  { split; [apply NoDup_singleton|]. apply Forall_cons_2; [reflexivity|apply Forall_nil_2]. }
  pose proof (rars_keyed_kept (H := mock two_grants_per_call) example_cfg
                (ra_sched.mk [example_rar 100 3] 2) Hk) as [Hinfo Hloop].
  split; [exact (Hinfo (example_info 101 7))|].
  exact (Hloop (example_slot two_grants_per_call 100) 3%nat).
Defined.

Lemma dl_sched_rb_collision_witness :
  ra_sched.dl_sched (H := mock no_rb_left) 1 example_cfg
    (ra_sched.mk [example_rar 100 3; example_rar 101 1] 2) (example_slot no_rb_left 100)
  = Some (ra_sched.mk [example_rar 100 3; example_rar 101 1] 2,
          set_grid (example_slot no_rb_left 100) 1,
          [Call_alloc_rar 2 (example_rar 100 3) (RB_COLLISION, 0)]).
Proof.
  exact (dl_sched_rb_collision (H := mock no_rb_left) example_cfg
           (ra_sched.mk [example_rar 100 3; example_rar 101 1] 2)
           (example_slot no_rb_left 100) (example_rar 100 3) [example_rar 101 1] 0 1 0%nat
           eq_refl eq_refl eq_refl).
Defined.

Lemma dl_sched_all_granted_witness :
  exists sf',
    ra_sched.dl_sched (H := mock grants_all) 2 example_cfg
      (ra_sched.mk [example_rar 100 3; example_rar 101 1] 2) (example_slot grants_all 100)
    = Some (ra_sched.mk [] 2, sf',
            [Call_alloc_rar 2 (example_rar 100 3) (SUCCESS, 3);
             Call_alloc_rar 2 (example_rar 101 1) (SUCCESS, 1)])
    /\ slot_core sf' = slot_core (example_slot grants_all 100).
Proof.
  refine (dl_sched_all_granted (H := mock grants_all) example_cfg
            (ra_sched.mk [example_rar 100 3; example_rar 101 1] 2)
            (example_slot grants_all 100) 2 _ _).
  - repeat first [apply Forall_cons_2 | apply Forall_nil_2];
      (split; [reflexivity|intros g0; reflexivity]).
  - simpl. lia.
Defined.

Lemma sched_msg3_enqueues_witness :
  pending_msg3 (fst (ra_sched.sched_msg3 (H := mock two_grants_per_call) example_cfg
                       [[mk_rar_grant 52 0 70; mk_rar_grant 30 1 71]; [mk_rar_grant 4 0 72]]
                       (example_slot two_grants_per_call 106)))
  = [mk_pending_msg3 70 3 2 0; mk_pending_msg3 71 2 5 1; mk_pending_msg3 72 1 4 0].
Proof.
  exact (proj1 (sched_msg3_enqueues (H := mock two_grants_per_call) example_cfg
                  [[mk_rar_grant 52 0 70; mk_rar_grant 30 1 71]; [mk_rar_grant 4 0 72]]
                  (example_slot two_grants_per_call 106) (fun _ _ _ => eq_refl))).
Defined.

Lemma bc_dl_sched_per_sib_witness :
  bc_calls_sib 0 (snd (bc_sched.dl_sched (H := mock two_grants_per_call) example_cfg
                         example_bc (example_slots 1)))
  = [(2, 0)].
Proof.
  exact (proj1 (proj2 (bc_dl_sched_per_sib (H := mock two_grants_per_call) example_cfg
                         example_bc (example_slots 1) 0 bc_sched.sib_zero eq_refl))).
Defined.

Lemma bc_alloc_subframes_witness :
  get_sfn (example_slots 1) mod 2 = 0 /\ get_sf_idx (example_slots 1) = 5.
Proof.
  destruct (bc_alloc_subframes (H := mock two_grants_per_call) example_cfg example_bc
              (example_slots 1) 2 0 0 ltac:(vm_compute; left; reflexivity))
    as (_ & _ & _ & _ & [(_ & Hsfn & Hsf)|(Hpos & _)]).
  - split; [exact Hsfn|exact Hsf].
  - lia.
Defined.

Lemma bc_silent_sib_witness :
  bc_calls_sib 1 (snd (bc_sched.dl_sched (H := mock two_grants_per_call)
     {| sibs := [mk_sib_cfg 18 8; mk_sib_cfg 0 16]; si_window_ms := 20;
        prach_rar_window := 10; prach_config := 3; prach_freq_offset := 2; nrb_pucch := 2;
        nof_prb := 25; nof_ctrl_symbols := 3; enb_cc_idx := 0 |}
     (bc_sched.mk [bc_sched.sib_zero; bc_sched.sib_zero] 0 0 0 0) (example_slots 5)))
  = [].
Proof.
  exact (proj2 (bc_silent_sib (H := mock two_grants_per_call)
     {| sibs := [mk_sib_cfg 18 8; mk_sib_cfg 0 16]; si_window_ms := 20;
        prach_rar_window := 10; prach_config := 3; prach_freq_offset := 2; nrb_pucch := 2;
        nof_prb := 25; nof_ctrl_symbols := 3; enb_cc_idx := 0 |}
     (bc_sched.mk [bc_sched.sib_zero; bc_sched.sib_zero] 0 0 0 0) (example_slots 5)
     1 bc_sched.sib_zero eq_refl eq_refl)).
Defined.

Lemma bc_n_tx_bounded_witness :
  Forall (fun sib => 0 <= bc_sched.n_tx sib <= 4)
    (bc_sched.pending_sibs
       (fst (fst (bc_sched.dl_sched (H := mock two_grants_per_call) example_cfg
                    (bc_sched.mk [bc_sched.mk_sib true 0 3] 0 0 0 0) (example_slots 1))))).
Proof.
  exact (proj1 (bc_n_tx_bounded (H := mock two_grants_per_call) example_cfg
                  (bc_sched.mk [bc_sched.mk_sib true 0 3] 0 0 0 0) (example_slots 1)
                  ltac:(apply Forall_cons_2; [simpl; lia|apply Forall_nil_2]))).
Defined.

Lemma cfg_masks_disjoint_witness :
  Z.land (@carrier_sched.cfg_prach_mask example_cfg) (@carrier_sched.cfg_pucch_mask example_cfg)
  = 0.
Proof.
  exact (proj2 (cfg_masks_disjoint example_cfg
                  ltac:(simpl; lia) ltac:(simpl; lia) ltac:(simpl; lia) ltac:(simpl; lia))
               ltac:(simpl; lia)).
Defined.

Lemma alloc_ul_users_no_collision_witness :
  snd (carrier_sched.alloc_ul_users (H := mock two_grants_per_call) example_cfg
         (example_carrier 0) (example_slot two_grants_per_call 97))
  = [Call_alloc_ul_users; Debug_prach_rbs (@carrier_sched.cfg_prach_mask example_cfg)].
Proof.
  exact (alloc_ul_users_no_collision (H := mock two_grants_per_call) example_cfg
           (example_carrier 0) (example_slot two_grants_per_call 97)
           eq_refl eq_refl eq_refl).
Defined.

Lemma generate_tti_result_blackout_witness :
  exists cs' evs,
    carrier_sched.generate_tti_result (H := mock two_grants_per_call) 0 example_cfg
      (example_carrier 1) 100 = Some (0%nat, cs', evs)
    /\ carrier_subs cs' = carrier_subs (example_carrier 1)
    /\ dl_ctrl_events evs = [].
Proof.
  destruct (generate_tti_result_blackout (H := mock two_grants_per_call) 0 example_cfg
              (example_carrier 1) 100 (example_slot two_grants_per_call 20000)
              eq_refl ltac:(simpl; lia) ltac:(vm_compute; discriminate))
    as (cs' & evs & Hr & Hsubs & Hev & _).
  exists cs', evs. split; [exact Hr|]. split; [exact Hsubs|exact Hev].
Defined.

Lemma generate_tti_result_ring_witness :
  match carrier_sched.generate_tti_result (H := mock two_grants_per_call) 10
          example_cfg (example_carrier 0) 100 with
  | Some (i, cs', _) =>
      i = 0%nat
      /\ length (carrier_sched.sf_scheds cs') = 10%nat
      /\ carrier_sched.sf_scheds cs' !! 3%nat = Some (example_slot two_grants_per_call 20000)
  | None => False
  end.
Proof.
  destruct (carrier_sched.generate_tti_result (H := mock two_grants_per_call) 10
              example_cfg (example_carrier 0) 100) as [[[i cs'] evs]|] eqn:E.
  - destruct (generate_tti_result_ring (H := mock two_grants_per_call) 10 example_cfg
                (example_carrier 0) 100 i cs' evs E) as (Hi & Hlen & _ & _ & _ & Hk & _).
    split; [exact Hi|]. split; [exact Hlen|].
    rewrite (Hk 3%nat); [reflexivity|rewrite Hi; vm_compute; lia|vm_compute; lia].
  - assert (Hs : match carrier_sched.generate_tti_result (H := mock two_grants_per_call) 10
                       example_cfg (example_carrier 0) 100 with
                 | Some _ => true | None => false end = true)
      by (vm_compute; reflexivity).
    rewrite E in Hs. discriminate Hs.
Defined.

Lemma set_dl_tti_mask_blocks_witness :
  carrier_sched.alloc_dl_users (H := mock two_grants_per_call) example_cfg
    (carrier_sched.set_dl_tti_mask (example_carrier 0) [0; 1; 0] 2)
    (example_slot two_grants_per_call 97)
  = (carrier_sched.set_dl_tti_mask (example_carrier 0) [0; 1; 0] 2,
     example_slot two_grants_per_call 97, [Call_alloc_dl_users]).
Proof.
  exact (set_dl_tti_mask_blocks (H := mock two_grants_per_call) example_cfg
           (example_carrier 0) [0; 1; 0] 2 (example_slot two_grants_per_call 97) 1
           ltac:(simpl; lia) eq_refl ltac:(lia)).
Defined.
